(** * cubejs-server-core: core/index.js

    A shallow embedding of [CubejsServerCore] (configuration check, lazy
    driver cache, dev-server endpoints, telemetry and the uncaught-exception
    supervisor) together with the properties its specification states.

    Conventions.
    - A JavaScript value that is "a string or undefined" is an [option string];
      [None] stands for [undefined].
    - [process.env] and the file system are finite maps keyed by strings.
    - A function that may throw returns a [completion].
    - An [async] function is split at its [await]s: the part that runs
      synchronously when it is called, and the part that runs when the awaited
      promise settles.  Effects on collaborators are recorded, in order, in a
      trace. *)

From stdpp Require Import gmap strings list.
From Stdlib Require Import ZArith Lia.

Local Open Scope string_scope.
Local Open Scope list_scope.

(** ** JavaScript preliminaries *)

Module Js.

(** Errors.  [JsError msg] is [new Error(msg)]; [TypeError] is what the
    engine raises when a missing method is called or a non-string is handed
    to [require]; [Raised] is whatever a collaborator throws. *)
Inductive error : Type :=
| JsError (msg : string)
| TypeError (what : string)
| Raised (tag : nat).

Inductive completion (A : Type) : Type :=
| Normal (a : A)
| Throw (e : error).
Arguments Normal {A} a.
Arguments Throw {A} e.

(** The state of the promise an [async] function hands back. *)
Inductive promise (A : Type) : Type :=
| Fulfilled (a : A)
| Rejected (e : error)
| Pending.
Arguments Fulfilled {A} a.
Arguments Rejected {A} e.
Arguments Pending {A}.

(** How the promise of an asynchronous operation of a collaborator settles
    ([Hangs]: it never does). *)
Inductive settle : Type :=
| Resolves
| RejectsWith (e : error)
| Hangs.

(** Truthiness of "string or undefined": [undefined] and [''] are falsy. *)
Definition truthy_str (v : option string) : bool :=
  match v with
  | None => false
  | Some s => negb (String.eqb s "")
  end.

(** Truthiness of "object/function or undefined". *)
Definition truthy_ref {A : Type} (v : option A) : bool :=
  match v with
  | None => false
  | Some _ => true
  end.

Definition truthy_bool (v : option bool) : bool :=
  match v with
  | None => false
  | Some b => b
  end.

(** [a || b] on "string or undefined". *)
Definition or_str (a b : option string) : option string :=
  if truthy_str a then a else b.

(** [s.indexOf(sub)]: position of the first occurrence, or -1. *)
Definition indexOf (s sub : string) : Z :=
  match String.index 0 sub s with
  | Some n => Z.of_nat n
  | None => (-1)%Z
  end.

(** The key a "string or undefined" turns into when used as [obj[key]]. *)
Definition to_key (v : option string) : string :=
  match v with
  | None => "undefined"
  | Some s => s
  end.

(** The properties every plain object inherits from [Object.prototype]. *)
Definition object_prototype : list string :=
  [ "constructor"; "__defineGetter__"; "__defineSetter__"; "hasOwnProperty";
    "__lookupGetter__"; "__lookupSetter__"; "isPrototypeOf";
    "propertyIsEnumerable"; "toString"; "valueOf"; "__proto__";
    "toLocaleString" ].

(** What reading a property of an object literal with string values gives:
    an own string, or a member inherited from [Object.prototype] (a function
    or, for [__proto__], the prototype object: truthy in every case). *)
Inductive prop : Type :=
| Own (s : string)
| Inherited (member : string).

Definition get (own : gmap string string) (key : string) : option prop :=
  match own !! key with
  | Some s => Some (Own s)
  | None =>
      if bool_decide (key ∈ object_prototype) then Some (Inherited key)
      else None
  end.

Definition truthy_prop (p : option prop) : bool :=
  match p with
  | None => false
  | Some (Own s) => negb (String.eqb s "")
  | Some (Inherited _) => true
  end.

(** [path.join(dir, name)] on a POSIX host for a plain file name: one
    segment, where there is nothing for [path.join] to normalise. *)
Definition path_join (dir name : string) : string := dir +:+ "/" +:+ name.

End Js.
Import Js.

(** ** Driver selection and the placeholder check *)

Definition DriverDependencies : gmap string string :=
  <["postgres" := "@cubejs-backend/postgres-driver"]>
  (<["mysql" := "@cubejs-backend/mysql-driver"]>
  (<["athena" := "@cubejs-backend/athena-driver"]>
  (<["jdbc" := "@cubejs-backend/jdbc-driver"]>
  (<["mongobi" := "@cubejs-backend/mongobi-driver"]> ∅)))).

Definition known_tags : list string :=
  ["postgres"; "mysql"; "athena"; "jdbc"; "mongobi"].

Definition placeholderSubstr : string := "<YOUR_DB_".

Definition credentials : list string :=
  ["CUBEJS_DB_HOST"; "CUBEJS_DB_NAME"; "CUBEJS_DB_USER"; "CUBEJS_DB_PASS"].

(** The spec's names for the two errors the file raises itself. *)
Definition ConfigError : error :=
  JsError "driverFactory, apiSecret, dbType are required options".

Definition PlaceholderCredentialError : error :=
  JsError "Your .env file contains placeholders in DB credentials. Please replace them with your DB credentials.".

(** The callback given to [credentials.find]. *)
Definition has_placeholder (env : gmap string string) (credential : string) : bool :=
  truthy_str (env !! credential) &&
  match env !! credential with
  | Some v => Z.eqb (indexOf v placeholderSubstr) 0
  | None => false
  end.

Definition checkEnvForPlaceholders (env : gmap string string) : completion unit :=
  if truthy_str (List.find (has_placeholder env) credentials)
  then Throw PlaceholderCredentialError
  else Normal tt.

(** [CubejsServerCore.driverDependencies(dbType)] *)
Definition driverDependencies (dbType : option string) : option prop :=
  if truthy_prop (get DriverDependencies (to_key dbType))
  then get DriverDependencies (to_key dbType)
  else get DriverDependencies "jdbc".

(** ** The lazy driver cache: [getDriver] *)

Module Driver.

(** A driver object is known by its reference. *)
Definition instance : Type := nat.

(** What happens when [driver.testConnection()] is evaluated. *)
Inductive test_call : Type :=
| NoMethod
| ThrowsSync (e : error)
| Returns (o : settle).

(** The collaborators.  [driverFactory k] is the outcome of the [k]-th
    invocation of [this.driverFactory] ([Normal None]: it returned
    [undefined]); [testConnection d j] is the outcome of the [j]-th
    connection test of the process, made on driver [d]. *)
Record world : Type := World {
  driverFactory : nat -> completion (option instance);
  testConnection : instance -> nat -> test_call
}.

Inductive call_event : Type :=
| EFactory (k : nat)
| ETest (d : instance) (j : nat)
| EStore (d : instance).

Definition is_factory (ev : call_event) : bool :=
  match ev with EFactory _ => true | _ => false end.

Definition is_test (ev : call_event) : bool :=
  match ev with ETest _ _ => true | _ => false end.

(** [driver] is [this.driver]; [trace] lists what has been done so far,
    oldest first. *)
Record state : Type := State {
  driver : option instance;
  trace : list call_event
}.

Definition factoryCalls (s : state) : nat :=
  length (filter (fun ev => is_factory ev = true) (trace s)).

Definition testCalls (s : state) : nat :=
  length (filter (fun ev => is_test ev = true) (trace s)).

(** The instances assigned to [this.driver], oldest first. *)
Definition stored (s : state) : list instance :=
  omap (fun ev => match ev with EStore d => Some d | _ => None end) (trace s).

Definition record (ev : call_event) (s : state) : state :=
  {| driver := driver s; trace := trace s ++ [ev] |}.

Definition store (d : instance) (s : state) : state :=
  {| driver := Some d; trace := trace s ++ [EStore d] |}.

(** A call of [getDriver] is either suspended at
    [await driver.testConnection()] or has settled. *)
Inductive task : Type :=
| Awaiting (d : instance) (o : settle)
| Done (r : promise (option instance)).

(** The synchronous part: from the call to the [await] (or to the end when
    there is a cached driver or something throws). *)
Definition getDriver_call (w : world) (s : state) : state * task :=
  if negb (truthy_ref (driver s)) then
    let s1 := record (EFactory (factoryCalls s)) s in
    match driverFactory w (factoryCalls s) with
    | Throw e => (s1, Done (Rejected e))
    | Normal None => (s1, Done (Rejected (TypeError "testConnection")))
    | Normal (Some d) =>
        match testConnection w d (testCalls s1) with
        | NoMethod => (s1, Done (Rejected (TypeError "testConnection")))
        | ThrowsSync e =>
            (record (ETest d (testCalls s1)) s1, Done (Rejected e))
        | Returns o =>
            (record (ETest d (testCalls s1)) s1, Awaiting d o)
        end
    end
  else (s, Done (Fulfilled (driver s))).

(** The rest, run when the awaited promise settles:
    [this.driver = driver; return this.driver]. *)
Definition getDriver_resume (s : state) (t : task) : state * task :=
  match t with
  | Awaiting d Resolves =>
      let s' := store d s in (s', Done (Fulfilled (driver s')))
  | Awaiting d (RejectsWith e) => (s, Done (Rejected e))
  | Awaiting d Hangs => (s, t)
  | Done _ => (s, t)
  end.

Definition answer (t : task) : promise (option instance) :=
  match t with
  | Done r => r
  | Awaiting _ _ => Pending
  end.

(** One call run to its end with nothing else scheduled in between. *)
Definition getDriver (w : world) (s : state) : state * promise (option instance) :=
  let '(s1, t1) := getDriver_call w s in
  let '(s2, t2) := getDriver_resume s1 t1 in
  (s2, answer t2).

(** Several calls in flight on the one event loop. *)
Record system : Type := System {
  core : state;
  tasks : list task
}.

Inductive action : Type :=
| Call
| Settle (i : nat).

Definition step (w : world) (sys : system) (a : action) : system :=
  match a with
  | Call =>
      let '(s', t) := getDriver_call w (core sys) in
      {| core := s'; tasks := tasks sys ++ [t] |}
  | Settle i =>
      match tasks sys !! i with
      | Some t =>
          let '(s', t') := getDriver_resume (core sys) t in
          {| core := s'; tasks := <[i := t']> (tasks sys) |}
      | None => sys
      end
  end.

Definition run (w : world) (acts : list action) (sys : system) : system :=
  fold_left (step w) acts sys.

(** A freshly constructed core: [this.driver] was never assigned. *)
Definition fresh : state := {| driver := None; trace := [] |}.

Definition boot (s : state) : system := {| core := s; tasks := [] |}.

(** [d] went through a connection test that resolved. *)
Definition tested (w : world) (s : state) (d : instance) : Prop :=
  ∃ j, ETest d j ∈ trace s ∧ testConnection w d j = Returns Resolves.

(** The factory or the connection test of the next call fails with [e]. *)
Definition fails (w : world) (s : state) (e : error) : Prop :=
  driverFactory w (factoryCalls s) = Throw e ∨
  ∃ d, driverFactory w (factoryCalls s) = Normal (Some d) ∧
       (testConnection w d (testCalls s) = ThrowsSync e ∨
        testConnection w d (testCalls s) = Returns (RejectsWith e)).

End Driver.

(** ** Effects on the outside world *)

Inductive line : Type :=
| LText (s : string)
| LRedisRequired
| LRedisWindows
| LRedisMac
| LRedisOther
| LTemporaryToken (token : string)
| LDevEnvironment (url : string).

(** A generated schema file. *)
Record file : Type := File {
  fileName : string;
  content : string
}.

(** The bodies handed to [res.json]: an object, as its fields in order. *)
Inductive jvalue : Type :=
| JStr (s : string)
| JUndefined
| JOpaque (ref : nat)
| JFiles (files : list file).

Definition json : Type := list (string * jvalue).

Definition of_str (v : option string) : jvalue :=
  match v with
  | Some s => JStr s
  | None => JUndefined
  end.

Inductive effect : Type :=
| ENewFileRepository (path : string)
| ENewAnalytics
| EMachineId
| EOnUncaughtException
| ENewCompilerApi
| ENewOrchestratorApi
| ENewApiGateway (secret : option string)
| EGatewayInitApp
| ERoute (method path : string)
| EServeStatic
| ESign (secret : option string) (expiresIn : string)
| EConsole (l : line)
| ETrack (name : string) (anonymousId : option string) (error : option string)
| EFlush
| ERequire (module : string)
| EWriteFile (path content : string)
| EExit (code : Z).

(** ** The constructor *)

(** A property of the options object the caller passes: not there, there
    with [undefined] (or [null]) in it, or there with a value. *)
Inductive slot (A : Type) : Type :=
| Unset
| Undef
| Val (a : A).
Arguments Unset {A}.
Arguments Undef {A}.
Arguments Val {A} a.

(** The default factory is the closure [() => createDriver(options.dbType)]. *)
Inductive factory : Type :=
| DefaultFactory
| CustomFactory (ref : nat).

Record options : Type := Options {
  o_driverFactory : slot factory;
  o_apiSecret : slot string;
  o_dbType : slot string;
  o_devServer : slot bool;
  o_schemaPath : slot string
}.

Definition no_options : options :=
  {| o_driverFactory := Unset; o_apiSecret := Unset; o_dbType := Unset;
     o_devServer := Unset; o_schemaPath := Unset |}.

(** The options after [{ defaults, ...options }]. *)
Record resolved : Type := Resolved {
  driverFactory : option factory;
  apiSecret : option string;
  dbType : option string;
  devServer : option bool;
  schemaPath : option string
}.

(** One property of [{ k: default, ...options }]: an own property of
    [options] wins, whatever it holds. *)
Definition spread {A : Type} (default : option A) (given : slot A) : option A :=
  match given with
  | Unset => default
  | Undef => None
  | Val a => Some a
  end.

Definition not_production (env : gmap string string) : bool :=
  match env !! "NODE_ENV" with
  | Some v => negb (String.eqb v "production")
  | None => true
  end.

Definition withDefaults (env : gmap string string) (arg : option options) : resolved :=
  let o := match arg with Some o => o | None => no_options end in
  {| driverFactory := spread (Some DefaultFactory) (o_driverFactory o);
     apiSecret := spread (env !! "CUBEJS_API_SECRET") (o_apiSecret o);
     dbType := spread (env !! "CUBEJS_DB_TYPE") (o_dbType o);
     devServer := spread (Some (not_production env)) (o_devServer o);
     schemaPath := spread None (o_schemaPath o) |}.

(** The fields of a constructed [CubejsServerCore].  The logger and the
    options that are only passed on to the collaborators are left out;
    [this_driver] is [this.driver] with the history of the calls that
    concern it. *)
Record CubejsServerCore : Type := Core {
  this_options : resolved;
  this_driverFactory : option factory;
  this_apiSecret : option string;
  this_schemaPath : string;
  this_dbType : option string;
  this_anonymousId : option string;
  this_driver : Driver.state
}.

Definition default_str (v : option string) (d : string) : string :=
  match or_str v (Some d) with
  | Some s => s
  | None => d
  end.

(** [new CubejsServerCore(options)]: the outcome and what it did to the
    outside world on the way.  [machineId] is what [machineIdSync()] gives;
    the collaborators the constructor calls after its check (the file
    repository, the analytics client, the machine id) are taken to answer. *)
Definition construct (env : gmap string string) (machineId : string)
    (arg : option options) : completion CubejsServerCore * list effect :=
  let o := withDefaults env arg in
  if negb (truthy_ref (driverFactory o)) ||
     negb (truthy_str (apiSecret o)) ||
     negb (truthy_str (dbType o))
  then (Throw ConfigError, [])
  else
    let path := default_str (schemaPath o) "schema" in
    let dev := truthy_bool (devServer o) in
    (Normal {| this_options := o;
               this_driverFactory := driverFactory o;
               this_apiSecret := apiSecret o;
               this_schemaPath := path;
               this_dbType := dbType o;
               this_anonymousId := if dev then Some machineId else None;
               this_driver := Driver.fresh |},
     ENewFileRepository path ::
     (if dev then [ERequire "analytics-node"; ENewAnalytics;
                   ERequire "node-machine-id"; ERequire "util";
                   EMachineId; EOnUncaughtException]
      else [])).

(** [CubejsServerCore.create(options)] *)
Definition create (env : gmap string string) (machineId : string)
    (arg : option options) : completion CubejsServerCore * list effect :=
  construct env machineId arg.

(** [CubejsServerCore.createDriver(dbType)].  [load m] is what
    [new (require(m))()] gives for a module name. *)
Definition createDriver (env : gmap string string)
    (load : string -> completion Driver.instance)
    (dbType : option string) : completion Driver.instance * list effect :=
  match checkEnvForPlaceholders env with
  | Throw e => (Throw e, [])
  | Normal _ =>
      match driverDependencies (or_str dbType (env !! "CUBEJS_DB_TYPE")) with
      | Some (Own m) => (load m, [ERequire m])
      | Some (Inherited _) => (Throw (TypeError "require"), [])
      | None => (Throw (TypeError "require"), [])
      end
  end.

(** The default factory of a core with resolved options [o]. *)
Definition default_factory (env : gmap string string)
    (load : string -> completion Driver.instance) (o : resolved)
    : completion Driver.instance * list effect :=
  createDriver env load (dbType o).

(** The collaborators [getDriver] meets in a core [c]: [this.driverFactory] is
    the default factory or the caller's ([custom f k] is what the [k]-th call
    of the caller's function [f] gives); [test] tells how connection tests
    go. *)
Definition core_world (env : gmap string string)
    (load : string -> completion Driver.instance)
    (custom : nat -> nat -> completion (option Driver.instance))
    (test : Driver.instance -> nat -> Driver.test_call)
    (c : CubejsServerCore) : Driver.world :=
  {| Driver.driverFactory := fun k =>
       match this_driverFactory c with
       | Some DefaultFactory =>
           match fst (default_factory env load (this_options c)) with
           | Normal d => Normal (Some d)
           | Throw e => Throw e
           end
       | Some (CustomFactory f) => custom f k
       | None => Throw (TypeError "driverFactory")
       end;
     Driver.testConnection := test |}.

(** ** Telemetry: [this.event] *)

(** How the analytics client answers [track] and [flush] for an event. *)
Record sink : Type := Sink {
  track : string -> settle;
  flush : string -> settle
}.

(** The part of [this.event(name, props)] that runs when it is called:
    [client.track] is handed the event. *)
Definition event_call (name : string) (anonymousId error : option string)
    : list effect :=
  [ETrack name anonymousId error].

(** The body of the [try], after [track] was called: await its answer, then
    [flush] and await that. *)
Definition event_body (k : sink) (name : string) : promise unit * list effect :=
  match track k name with
  | Resolves =>
      match flush k name with
      | Resolves => (Fulfilled tt, [EFlush])
      | RejectsWith e => (Rejected e, [EFlush])
      | Hangs => (Pending, [EFlush])
      end
  | RejectsWith e => (Rejected e, [])
  | Hangs => (Pending, [])
  end.

(** [try { ... } catch (e) { }] around an awaited body. *)
Definition catch_all (p : promise unit) : promise unit :=
  match p with
  | Rejected _ => Fulfilled tt
  | _ => p
  end.

(** What happens in the background once [this.event] was called. *)
Definition event_settle (k : sink) (name : string) : promise unit * list effect :=
  (catch_all (fst (event_body k name)), snd (event_body k name)).

(** [this.event(name, props)] as a whole: the promise it returns and what it
    does to the sink. *)
Definition event (k : sink) (name : string) (anonymousId error : option string)
    : promise unit * list effect :=
  (fst (event_settle k name),
   event_call name anonymousId error ++ snd (event_settle k name)).

(** ** Composition: [initApp] and [initDevEnv] *)

(** The collaborators of the dev server.  [jwt_sign secret expiresIn now] is
    [jwt.sign({}, secret, { expiresIn })] evaluated at time [now];
    [tablesSchema d] is how [d.tablesSchema()] settles and [dataSchemaFiles]
    how [this.repository.dataSchemaFiles()] does;
    [generateFilesByTableNames schema tables] is what a [ScaffoldingTemplate]
    built on [schema] generates for [tables]; [writeFile path] is how
    [fs.writeFile] settles for a path. *)
Record devtools : Type := Devtools {
  jwt_sign : option string -> string -> nat -> string;
  tablesSchema : Driver.instance -> promise nat;
  dataSchemaFiles : promise nat;
  generateFilesByTableNames : nat -> list string -> list file;
  writeFile : string -> settle
}.

(** What [initDevEnv] leaves in the closures of the routes it registers. *)
Definition apiUrl (env : gmap string string) : string :=
  let port := default_str (env !! "PORT") "4000" in
  default_str (env !! "CUBEJS_API_URL") ("http://localhost:" +:+ port).

Definition initDevEnv (t : devtools) (env : gmap string string)
    (c : CubejsServerCore) (now : nat) : list effect :=
  [ ERequire "jsonwebtoken";
    ESign (this_apiSecret c) "1d";
    EConsole (LTemporaryToken (jwt_sign t (this_apiSecret c) "1d" now));
    EConsole (LDevEnvironment (apiUrl env)) ] ++
  event_call "Dev Server Start" (this_anonymousId c) None ++
  [ ERequire "serve-static";
    ERoute "GET" "/playground/context";
    ERoute "GET" "/playground/db-schema";
    ERoute "GET" "/playground/files";
    ERoute "POST" "/playground/generate-schema";
    EServeStatic ].

Definition initApp (t : devtools) (env : gmap string string)
    (c : CubejsServerCore) (now : nat) : promise unit * list effect :=
  match checkEnvForPlaceholders env with
  | Throw e => (Rejected e, [])
  | Normal _ =>
      (Fulfilled tt,
       [ ENewCompilerApi; ENewOrchestratorApi;
         ENewApiGateway (this_apiSecret c); EGatewayInitApp ] ++
       (if truthy_bool (devServer (this_options c))
        then initDevEnv t env c now else []))
  end.

(** ** The dev-server endpoints *)

(** What a request handler leaves behind.  [response] is [Fulfilled body]
    when [res.json(body)] was called, [Rejected e] when the handler failed
    before answering, [Pending] when it is still waiting.  [effects] is what
    the handler itself did, in order; [background] is the promise of the
    [this.event] call it did not await. *)
Record outcome : Type := Outcome {
  response : promise json;
  effects : list effect;
  background : promise unit;
  driver_after : Driver.state;
  fs_after : gmap string string
}.

(** [GET /playground/context] *)
Definition context_handler (t : devtools) (k : sink) (env : gmap string string)
    (c : CubejsServerCore) (fs : gmap string string) (now : nat) : outcome :=
  {| response :=
       Fulfilled [ ("cubejsToken", JStr (jwt_sign t (this_apiSecret c) "1d" now));
                   ("apiUrl", JStr (apiUrl env));
                   ("anonymousId", of_str (this_anonymousId c)) ];
     effects :=
       event_call "Dev Server Env Open" (this_anonymousId c) None ++
       [ESign (this_apiSecret c) "1d"];
     background := fst (event_settle k "Dev Server Env Open");
     driver_after := this_driver c;
     fs_after := fs |}.

(** [const driver = await this.getDriver();
     const tablesSchema = await driver.tablesSchema();] *)
Definition load_schema (t : devtools) (w : Driver.world) (s : Driver.state)
    : Driver.state * promise nat :=
  let '(s', r) := Driver.getDriver w s in
  (s', match r with
       | Fulfilled (Some d) => tablesSchema t d
       | Fulfilled None => Rejected (TypeError "tablesSchema")
       | Rejected e => Rejected e
       | Pending => Pending
       end).

(** [GET /playground/db-schema] *)
Definition db_schema_handler (t : devtools) (w : Driver.world) (k : sink)
    (c : CubejsServerCore) (fs : gmap string string) : outcome :=
  let '(s', schema) := load_schema t w (this_driver c) in
  {| response :=
       match schema with
       | Fulfilled ts => Fulfilled [("tablesSchema", JOpaque ts)]
       | Rejected e => Rejected e
       | Pending => Pending
       end;
     effects := event_call "Dev Server DB Schema Load" (this_anonymousId c) None;
     background := fst (event_settle k "Dev Server DB Schema Load");
     driver_after := s';
     fs_after := fs |}.

(** [GET /playground/files] *)
Definition files_handler (t : devtools) (k : sink)
    (c : CubejsServerCore) (fs : gmap string string) : outcome :=
  {| response :=
       match dataSchemaFiles t with
       | Fulfilled files => Fulfilled [("files", JOpaque files)]
       | Rejected e => Rejected e
       | Pending => Pending
       end;
     effects := event_call "Dev Server Files Load" (this_anonymousId c) None;
     background := fst (event_settle k "Dev Server Files Load");
     driver_after := this_driver c;
     fs_after := fs |}.

(** The path one generated file is written to. *)
Definition target (f : file) : string := path_join "schema" (fileName f).

(** [fs.writeFile(path.join('schema', file.fileName), file.content)] *)
Definition write_one (t : devtools) (fs : gmap string string) (f : file)
    : gmap string string :=
  match writeFile t (target f) with
  | Resolves => <[target f := content f]> fs
  | _ => fs
  end.

(** [Promise.all] over promises that settle as listed. *)
Fixpoint promise_all (os : list settle) : promise unit :=
  match os with
  | [] => Fulfilled tt
  | o :: rest =>
      match o, promise_all rest with
      | RejectsWith e, _ => Rejected e
      | _, Rejected e => Rejected e
      | Hangs, _ => Pending
      | Resolves, r => r
      end
  end.

(** [POST /playground/generate-schema] with body [{ tables }] *)
Definition generate_schema_handler (t : devtools) (w : Driver.world) (k : sink)
    (c : CubejsServerCore) (fs : gmap string string) (tables : list string) : outcome :=
  let called := event_call "Dev Server Generate Schema" (this_anonymousId c) None in
  let '(s', schema) := load_schema t w (this_driver c) in
  match schema with
  | Fulfilled ts =>
      let files := generateFilesByTableNames t ts tables in
      {| response :=
           match promise_all (map (fun f => writeFile t (target f)) files) with
           | Fulfilled _ => Fulfilled [("files", JFiles files)]
           | Rejected e => Rejected e
           | Pending => Pending
           end;
         effects :=
           called ++
           [ERequire "@cubejs-backend/schema-compiler/scaffolding/ScaffoldingTemplate"] ++
           map (fun f => EWriteFile (target f) (content f)) files;
         background := fst (event_settle k "Dev Server Generate Schema");
         driver_after := s';
         fs_after := fold_left (write_one t) files fs |}
  | Rejected e =>
      {| response := Rejected e; effects := called;
         background := fst (event_settle k "Dev Server Generate Schema");
         driver_after := s'; fs_after := fs |}
  | Pending =>
      {| response := Pending; effects := called;
         background := fst (event_settle k "Dev Server Generate Schema");
         driver_after := s'; fs_after := fs |}
  end.

(** ** The uncaught-exception supervisor *)

Module Supervisor.

(** A thrown value that is not null or undefined, as the listener sees it:
    its [stack] and [message] (strings when present), what [toString()]
    gives for it, and what [console.error] prints for it. *)
Record exn : Type := Exn {
  stack : option string;
  message : option string;
  text : string;
  shown : string
}.

(** What can reach the listener: any thrown value, null and undefined among
    them. *)
Inductive thrown : Type :=
| Nullish
| Value (e : exn).

Definition fatal : string := "Dev Server Fatal Error".

(** The listener a dev-mode core installs, with the cell it closes over:
    [causeErrorPromise] is a local of the constructor call, so each core has
    its own listener and its own cell.  [causeErrorPromise] holds the promise
    of the report, named by the number of the exception that created it;
    [settled] tells whether that promise has settled; [waiting] lists, for
    each run of the listener suspended at [await causeErrorPromise], the
    promise it awaits; [exited] is the status the process has exited with. *)
Record process : Type := Process {
  causeErrorPromise : option nat;
  settled : bool;
  waiting : list nat;
  arrivals : nat;
  trace : list effect;
  exited : option Z
}.

Definition init : process :=
  {| causeErrorPromise := None; settled := false; waiting := [];
     arrivals := 0; trace := []; exited := None |}.

(** The remediation lines for a Redis connection failure. *)
Definition guidance (platform : string) (e : exn) : list effect :=
  if truthy_str (message e) &&
     match message e with
     | Some m => negb (Z.eqb (indexOf m "Redis connection to") (-1))
     | None => false
     end
  then
    EConsole LRedisRequired ::
    (if Z.eqb (indexOf platform "win") 0 then [EConsole LRedisWindows]
     else if Z.eqb (indexOf platform "darwin") 0 then [EConsole LRedisMac]
     else [EConsole LRedisOther])
  else [].

(** [(e.stack || e.message || e).toString()] *)
Definition report_text (e : exn) : option string :=
  or_str (stack e) (or_str (message e) (Some (text e))).

(** The listener, from the exception to [await causeErrorPromise]. *)
Definition on_uncaught (platform : string) (anonymousId : option string)
    (s : process) (e : exn) : process :=
  let logs := EConsole (LText (default_str (stack e) (shown e))) ::
              guidance platform e in
  if negb (truthy_ref (causeErrorPromise s)) then
    {| causeErrorPromise := Some (arrivals s);
       settled := false;
       waiting := waiting s ++ [arrivals s];
       arrivals := S (arrivals s);
       trace := trace s ++ logs ++
                event_call fatal anonymousId (report_text e);
       exited := exited s |}
  else
    {| causeErrorPromise := causeErrorPromise s;
       settled := settled s;
       waiting := waiting s ++
                  match causeErrorPromise s with Some p => [p] | None => [] end;
       arrivals := S (arrivals s);
       trace := trace s ++ logs;
       exited := exited s |}.

(** The part of the listener that runs when the exception arrives.  Reading
    [e.stack] off null or undefined throws at its first statement: the
    promise of the listener is rejected, and nothing was printed, reported or
    awaited.  What the runtime makes of that rejection is not the listener's:
    a warning, or a further uncaught exception, which then is an occurrence
    of its own. *)
Definition listener (platform : string) (anonymousId : option string)
    (s : process) (v : thrown) : completion process :=
  match v with
  | Nullish => Throw (TypeError "stack")
  | Value e => Normal (on_uncaught platform anonymousId s e)
  end.

(** The report settles, as [this.event] makes it. *)
Definition on_settle (k : sink) (s : process) : process :=
  match causeErrorPromise s, fst (event_settle k fatal) with
  | Some _, Fulfilled _ =>
      {| causeErrorPromise := causeErrorPromise s; settled := true;
         waiting := waiting s; arrivals := arrivals s;
         trace := trace s; exited := exited s |}
  | _, _ => s
  end.

(** The [i]-th listener goes on after its [await]: [process.exit(1)]. *)
Definition on_resume (s : process) (i : nat) : process :=
  match waiting s !! i with
  | Some p =>
      if bool_decide (causeErrorPromise s = Some p) && settled s then
        {| causeErrorPromise := causeErrorPromise s; settled := settled s;
           waiting := waiting s; arrivals := arrivals s;
           trace := trace s ++ [EExit 1]; exited := Some 1%Z |}
      else s
  | None => s
  end.

(** What happens to the process: an uncaught exception with a value, the
    settling of the report, a suspended run of the listener going on, or an
    uncaught exception whose value is null or undefined. *)
Inductive occurrence : Type :=
| Uncaught (e : exn)
| Settle
| Resume (i : nat)
| UncaughtNullish.

(** Nothing runs in a process that has exited. *)
Definition react (platform : string) (anonymousId : option string) (k : sink)
    (s : process) (a : occurrence) : process :=
  match exited s with
  | Some _ => s
  | None =>
      match a with
      | Uncaught e => on_uncaught platform anonymousId s e
      | Settle => on_settle k s
      | Resume i => on_resume s i
      | UncaughtNullish =>
          match listener platform anonymousId s Nullish with
          | Normal s' => s'
          | Throw _ => s
          end
      end
  end.

Definition react_all (platform : string) (anonymousId : option string) (k : sink)
    (acts : list occurrence) (s : process) : process :=
  fold_left (react platform anonymousId k) acts s.

Definition is_fatal_report (ev : effect) : bool :=
  match ev with
  | ETrack name _ _ => String.eqb name fatal
  | _ => false
  end.

(** The number of fatal-error events handed to the sink. *)
Definition fatal_reports (s : process) : nat :=
  length (filter (fun ev => is_fatal_report ev = true) (trace s)).

(** The uncaught exceptions that carry a value. *)
Definition is_uncaught (a : occurrence) : bool :=
  match a with Uncaught _ => true | _ => false end.

Definition exceptions (acts : list occurrence) : nat :=
  length (filter (fun a => is_uncaught a = true) acts).




End Supervisor.

(** ** Notions used in the statements *)

Definition jdbc : option prop := Some (Own "@cubejs-backend/jdbc-driver").

(** A required option is missing when what the merged options hold for it is
    falsy: nothing, or the empty string. *)
Definition incomplete (o : resolved) : Prop :=
  truthy_ref (driverFactory o) = false ∨
  truthy_str (apiSecret o) = false ∨
  truthy_str (dbType o) = false.

(** Collaborators for the worked examples: a template that generates one
    file for each table, named after it, and a disk on which every write
    succeeds. *)
Definition demo_tools : devtools :=
  {| jwt_sign := fun _ expiresIn _ => "jwt:" +:+ expiresIn;
     tablesSchema := fun _ => Fulfilled 0;
     dataSchemaFiles := Fulfilled 0;
     generateFilesByTableNames := fun _ tables =>
       map (fun table => {| fileName := table +:+ ".js";
                            content := "cube:" +:+ table |}) tables;
     writeFile := fun _ => Resolves |}.

(** The same, on a disk that refuses one path. *)
Definition failing_disk (bad : string) : devtools :=
  {| jwt_sign := jwt_sign demo_tools;
     tablesSchema := tablesSchema demo_tools;
     dataSchemaFiles := dataSchemaFiles demo_tools;
     generateFilesByTableNames := generateFilesByTableNames demo_tools;
     writeFile := fun path =>
       if String.eqb path bad then RejectsWith (Raised 13) else Resolves |}.

Definition quiet_sink : sink :=
  {| track := fun _ => Resolves; flush := fun _ => Resolves |}.

(** A factory that hands out a new driver at each call; every connection
    test resolves. *)
Definition demo_world : Driver.world :=
  {| Driver.driverFactory := fun k => Normal (Some k);
     Driver.testConnection := fun _ _ => Driver.Returns Resolves |}.

(** What holds of the supervisor at every moment: there is a report exactly
    when an exception has arrived, it is the one the first exception created,
    every suspended listener awaits it, and the process has exited only with
    status 1 and only once the report had settled. *)
Definition coherent (k : sink) (s : Supervisor.process) : Prop :=
  Supervisor.fatal_reports s
    = (if truthy_ref (Supervisor.causeErrorPromise s) then 1 else 0) ∧
  (Supervisor.causeErrorPromise s = None →
   Supervisor.arrivals s = 0 ∧ Supervisor.settled s = false) ∧
  (∀ p, Supervisor.causeErrorPromise s = Some p →
        p = 0 ∧ 0 < Supervisor.arrivals s) ∧
  (∀ p, p ∈ Supervisor.waiting s → Supervisor.causeErrorPromise s = Some p) ∧
  length (Supervisor.waiting s) = Supervisor.arrivals s ∧
  (Supervisor.settled s = true →
   fst (event_settle k Supervisor.fatal) = Fulfilled tt) ∧
  (∀ c, Supervisor.exited s = Some c →
        c = 1%Z ∧ Supervisor.settled s = true ∧
        last (Supervisor.trace s) = Some (EExit 1)).

(** Two exceptions for the worked examples: an [Error] and a thrown object
    that has a message and no stack. *)
Definition redis_down : Supervisor.exn :=
  {| Supervisor.stack := Some "Error: Redis connection to 127.0.0.1:6379 failed";
     Supervisor.message := Some "Redis connection to 127.0.0.1:6379 failed";
     Supervisor.text := "Error: Redis connection to 127.0.0.1:6379 failed";
     Supervisor.shown := "Error: Redis connection to 127.0.0.1:6379 failed" |}.

Definition boom : Supervisor.exn :=
  {| Supervisor.stack := None;
     Supervisor.message := Some "boom";
     Supervisor.text := "[object Object]";
     Supervisor.shown := "{ message: 'boom' }" |}.

(** A factory that throws at its first call, and a connection test that
    rejects the first time it is made. *)
Definition flaky_world : Driver.world :=
  {| Driver.driverFactory := fun k =>
       match k with 0 => Throw (Raised 1) | S _ => Normal (Some k) end;
     Driver.testConnection := fun _ j =>
       match j with
       | 0 => Driver.Returns (RejectsWith (Raised 2))
       | S _ => Driver.Returns Resolves
       end |}.

(** A core built in dev mode with the schema files kept under [dir]. *)
Definition demo_options (dir : slot string) : options :=
  {| o_driverFactory := Val (CustomFactory 0); o_apiSecret := Val "secret";
     o_dbType := Val "postgres"; o_devServer := Val true;
     o_schemaPath := dir |}.

Definition demo_core (dir : slot string) : CubejsServerCore :=
  match fst (construct ∅ "machine" (Some (demo_options dir))) with
  | Normal c => c
  | Throw _ =>
      {| this_options := withDefaults ∅ None; this_driverFactory := None;
         this_apiSecret := None; this_schemaPath := ""; this_dbType := None;
         this_anonymousId := None; this_driver := Driver.fresh |}
  end.

(** ** The logger *)

(** What the logger is handed besides the message: [params.error] and the
    text [JSON.stringify(params)] gives. *)
Record log_params : Type := LogParams {
  p_error : option string;
  p_json : string
}.

(** [console.log(`${msg}: ${JSON.stringify(params)}`)]; with no [params] the
    template shows undefined. *)
Definition log_line (msg : string) (params : option log_params) : effect :=
  EConsole (LText (msg +:+ ": " +:+
                   match params with
                   | Some p => p_json p
                   | None => "undefined"
                   end)).

(** The logger of a core when the caller gave none and dev mode is off. *)
Definition default_logger (msg : string) (params : option log_params)
    : completion (list effect) :=
  Normal [log_line msg params].

(** The logger a dev-mode core installs when the caller gave none.  Reading
    [params.error] off a missing [params] throws before anything is logged. *)
Definition dev_logger (anonymousId : option string) (msg : string)
    (params : option log_params) : completion (list effect) :=
  if String.eqb msg "Load Request" ||
     String.eqb msg "Load Request Success" ||
     String.eqb msg "Orchestrator error" ||
     String.eqb msg "Internal Server Error" ||
     String.eqb msg "User Error"
  then
    match params with
    | None => Throw (TypeError "error")
    | Some p =>
        Normal (event_call msg anonymousId (p_error p) ++ [log_line msg params])
    end
  else Normal [log_line msg params].

(** The messages the dev logger reports to the sink. *)
Definition reported_messages : list string :=
  [ "Load Request"; "Load Request Success"; "Orchestrator error";
    "Internal Server Error"; "User Error" ].

Definition is_track (ev : effect) : bool :=
  match ev with ETrack _ _ _ => true | _ => false end.

Definition is_route (ev : effect) : bool :=
  match ev with ERoute _ _ => true | _ => false end.

(** A call in flight whose connection test resolves: it will assign its
    driver to the cache when it goes on. *)
Definition will_store (t : Driver.task) : bool :=
  match t with
  | Driver.Awaiting _ Resolves => true
  | _ => false
  end.


Definition is_call (a : Driver.action) : bool :=
  match a with Driver.Call => true | Driver.Settle _ => false end.

(** A plain file name: one path segment, which [path.join] appends to the
    directory as it is (not empty, not a dot or two dots, no slash). *)
Fixpoint has_slash (s : string) : bool :=
  match s with
  | EmptyString => false
  | String c s' => String.eqb (String c EmptyString) "/" || has_slash s'
  end.

Definition plain_name (s : string) : bool :=
  negb (String.eqb s "") && negb (String.eqb s ".") &&
  negb (String.eqb s "..") && negb (has_slash s).

(** The core after a request left its driver cache as [s]. *)
Definition with_driver (c : CubejsServerCore) (s : Driver.state) : CubejsServerCore :=
  {| this_options := this_options c;
     this_driverFactory := this_driverFactory c;
     this_apiSecret := this_apiSecret c;
     this_schemaPath := this_schemaPath c;
     this_dbType := this_dbType c;
     this_anonymousId := this_anonymousId c;
     this_driver := s |}.

(** * Properties *)

(** ** Placeholder credentials *)

Lemma index_zero_prefix (p s : string) :
  String.index 0 p s = Some 0 ↔ String.prefix p s = true.
Proof.
  destruct s as [|a s]; simpl.
  - destruct p; simpl; split; congruence.
  - destruct p as [|b p]; simpl; [tauto|].
    destruct (Ascii.ascii_dec b a) as [->|Hne].
    + destruct (String.prefix p s); [tauto|].
      destruct (String.index 0 (String a p) s); split; congruence.
    + destruct (String.index 0 (String b p) s); split; congruence.
Qed.

Lemma indexOf_zero (s sub : string) :
  Z.eqb (indexOf s sub) 0 = true ↔ String.prefix sub s = true.
Proof.
  rewrite <- index_zero_prefix. unfold indexOf.
  destruct (String.index 0 sub s) as [n|]; rewrite Z.eqb_eq.
  - split; [intros H; f_equal; lia | intros [= ->]; reflexivity].
  - split; [lia | congruence].
Qed.

Lemma has_placeholder_iff (env : gmap string string) (c : string) :
  has_placeholder env c = true ↔
  ∃ v, env !! c = Some v ∧ String.prefix placeholderSubstr v = true.
Proof.
  unfold has_placeholder. destruct (env !! c) as [v|] eqn:Hv; simpl.
  - rewrite andb_true_iff, indexOf_zero. split.
    + intros [_ H]. eauto.
    + intros (v' & [= <-] & H). split; [|exact H].
      destruct v; [discriminate H | reflexivity].
  - split; [discriminate | intros (v & [=] & _)].
Qed.

Lemma credentials_truthy (c : string) :
  In c credentials → truthy_str (Some c) = true.
Proof.
  unfold credentials. simpl.
  intros [<-|[<-|[<-|[<-|[]]]]]; reflexivity.
Qed.

Lemma checkEnvForPlaceholders_throws (env : gmap string string) :
  (∃ c, In c credentials ∧ has_placeholder env c = true) ↔
  checkEnvForPlaceholders env = Throw PlaceholderCredentialError.
Proof.
  unfold checkEnvForPlaceholders.
  destruct (List.find (has_placeholder env) credentials) as [c'|] eqn:Hf.
  - apply find_some in Hf as [Hin Hc'].
    rewrite (credentials_truthy _ Hin). split; eauto.
  - simpl. split; [|discriminate].
    intros (c & Hin & Hc).
    pose proof (find_none _ _ Hf c Hin). congruence.
Qed.

Lemma checkEnvForPlaceholders_passes (env : gmap string string) :
  (∀ c, In c credentials → has_placeholder env c = false) →
  checkEnvForPlaceholders env = Normal tt.
Proof.
  intros H. unfold checkEnvForPlaceholders.
  destruct (List.find (has_placeholder env) credentials) as [c'|] eqn:Hf.
  - apply find_some in Hf as [Hin Hc']. rewrite H in Hc'; [discriminate|exact Hin].
  - reflexivity.
Qed.

(** C6.  When one of the four credential variables (DB host, name, user,
    password) holds a value that begins with the placeholder marker,
    [checkEnvForPlaceholders] throws the placeholder error; [initApp] makes
    that check first, so it fails with that error having composed nothing, and
    [createDriver] (hence the default driver factory) makes it first, so it
    throws that error having loaded and constructed nothing. *)
Theorem placeholder_credentials_rejected
    (env : gmap string string) (c v : string) :
  In c credentials →
  env !! c = Some v →
  String.prefix placeholderSubstr v = true →
  checkEnvForPlaceholders env = Throw PlaceholderCredentialError ∧
  (∀ t inst now,
     initApp t env inst now = (Rejected PlaceholderCredentialError, [])) ∧
  (∀ load dbType,
     createDriver env load dbType = (Throw PlaceholderCredentialError, [])) ∧
  (∀ load o,
     default_factory env load o = (Throw PlaceholderCredentialError, [])).
Proof.
  intros Hin Hv Hp.
  assert (Hthrow : checkEnvForPlaceholders env = Throw PlaceholderCredentialError).
  { apply checkEnvForPlaceholders_throws. exists c. split; [exact Hin|].
    apply has_placeholder_iff. eauto. }
  split; [exact Hthrow|].
  unfold default_factory, initApp, createDriver. rewrite Hthrow. auto.
Qed.

Lemma placeholder_credentials_rejected_witness :
  checkEnvForPlaceholders {["CUBEJS_DB_PASS" := "<YOUR_DB_PASS_HERE>"]}
    = Throw PlaceholderCredentialError.
Proof.
  apply (placeholder_credentials_rejected
           {["CUBEJS_DB_PASS" := "<YOUR_DB_PASS_HERE>"]}
           "CUBEJS_DB_PASS" "<YOUR_DB_PASS_HERE>").
  - simpl. tauto.
  - reflexivity.
  - reflexivity.
Defined.

(** ** Driver selection *)

Lemma DriverDependencies_lookup (key : string) :
  DriverDependencies !! key =
    if String.eqb key "postgres" then Some "@cubejs-backend/postgres-driver"
    else if String.eqb key "mysql" then Some "@cubejs-backend/mysql-driver"
    else if String.eqb key "athena" then Some "@cubejs-backend/athena-driver"
    else if String.eqb key "jdbc" then Some "@cubejs-backend/jdbc-driver"
    else if String.eqb key "mongobi" then Some "@cubejs-backend/mongobi-driver"
    else None.
Proof.
  unfold DriverDependencies.
  destruct (String.eqb_spec key "postgres") as [->|?]; [reflexivity|].
  rewrite lookup_insert_ne by congruence.
  destruct (String.eqb_spec key "mysql") as [->|?]; [reflexivity|].
  rewrite lookup_insert_ne by congruence.
  destruct (String.eqb_spec key "athena") as [->|?]; [reflexivity|].
  rewrite lookup_insert_ne by congruence.
  destruct (String.eqb_spec key "jdbc") as [->|?]; [reflexivity|].
  rewrite lookup_insert_ne by congruence.
  destruct (String.eqb_spec key "mongobi") as [->|?]; [reflexivity|].
  rewrite lookup_insert_ne by congruence.
  apply lookup_empty.
Qed.

Lemma DriverDependencies_unknown (key : string) :
  ¬ In key known_tags → DriverDependencies !! key = None.
Proof.
  intros Hk. rewrite DriverDependencies_lookup.
  unfold known_tags in Hk. simpl in Hk.
  destruct (String.eqb_spec key "postgres"); [subst; tauto|].
  destruct (String.eqb_spec key "mysql"); [subst; tauto|].
  destruct (String.eqb_spec key "athena"); [subst; tauto|].
  destruct (String.eqb_spec key "jdbc"); [subst; tauto|].
  destruct (String.eqb_spec key "mongobi"); [subst; tauto|].
  reflexivity.
Qed.

(** A known tag selects its own driver package. *)
Lemma driverDependencies_known (tag : string) :
  In tag known_tags →
  ∃ m, DriverDependencies !! tag = Some m ∧
       driverDependencies (Some tag) = Some (Own m).
Proof.
  unfold known_tags. simpl.
  intros [<-|[<-|[<-|[<-|[<-|[]]]]]]; eexists; split; reflexivity.
Qed.

(** A type that is neither a known tag nor the name of a member of
    [Object.prototype] (an absent type among them) selects the JDBC driver. *)
Lemma driverDependencies_fallback (dbType : option string) :
  ¬ In (to_key dbType) known_tags →
  to_key dbType ∉ object_prototype →
  driverDependencies dbType = jdbc.
Proof.
  intros Hk Hp. unfold driverDependencies, get.
  rewrite (DriverDependencies_unknown _ Hk).
  rewrite bool_decide_eq_false_2 by exact Hp. reflexivity.
Qed.

Lemma driverDependencies_undefined : driverDependencies None = jdbc.
Proof. reflexivity. Qed.

(** A type named like a member of [Object.prototype] selects that member. *)
Lemma driverDependencies_inherited (name : string) :
  name ∈ object_prototype →
  driverDependencies (Some name) = Some (Inherited name).
Proof.
  intros Hp. unfold driverDependencies, get. simpl.
  assert (Hk : ¬ In name known_tags).
  { intros Hk. apply list_elem_of_In in Hp.
    unfold known_tags in Hk. unfold object_prototype in Hp. simpl in Hk, Hp.
    destruct Hk as [<-|[<-|[<-|[<-|[<-|[]]]]]]; intuition discriminate. }
  rewrite (DriverDependencies_unknown _ Hk).
  rewrite bool_decide_eq_true_2 by exact Hp. reflexivity.
Qed.

(** C10, at the type "constructor".  It is a string outside the known tags,
    yet [driverDependencies] does not give the JDBC package for it: the lookup
    finds the member every object literal inherits, which is truthy, so the
    [||] never reaches the fallback; [createDriver] then hands that member to
    [require] and throws instead of constructing the JDBC driver. *)
Theorem driverDependencies_constructor :
  ¬ In "constructor" known_tags ∧
  driverDependencies (Some "constructor") = Some (Inherited "constructor") ∧
  driverDependencies (Some "constructor") ≠ jdbc ∧
  (∀ load, createDriver ∅ load (Some "constructor")
           = (Throw (TypeError "require"), [])).
Proof.
  split; [|split; [|split]].
  - simpl. intros [H|[H|[H|[H|[H|[]]]]]]; discriminate H.
  - reflexivity.
  - discriminate.
  - intros load. reflexivity.
Qed.

(** ** The constructor *)

Lemma construct_complete (env : gmap string string) (machineId : string)
    (arg : option options) :
  ¬ incomplete (withDefaults env arg) →
  ∃ c, fst (construct env machineId arg) = Normal c ∧
       this_options c = withDefaults env arg ∧
       this_driver c = Driver.fresh ∧
       In (ENewFileRepository (this_schemaPath c)) (snd (construct env machineId arg)).
Proof.
  intros Hc. unfold construct, incomplete in *.
  destruct (truthy_ref (driverFactory (withDefaults env arg)));
    [|exfalso; apply Hc; auto].
  destruct (truthy_str (apiSecret (withDefaults env arg)));
    [|exfalso; apply Hc; auto].
  destruct (truthy_str (dbType (withDefaults env arg)));
    [|exfalso; apply Hc; auto].
  simpl. eexists. repeat split. simpl. left. reflexivity.
Qed.

(** The default factory is always there: only an own [driverFactory] property
    of the caller's options that holds nothing makes the factory missing. *)
Lemma driverFactory_missing (env : gmap string string) (arg : option options) :
  truthy_ref (driverFactory (withDefaults env arg)) = false ↔
  ∃ o, arg = Some o ∧ o_driverFactory o = Undef.
Proof.
  unfold withDefaults. destruct arg as [o|]; simpl.
  - destruct (o_driverFactory o) eqn:Hf; simpl; split;
      try discriminate; eauto.
    + intros (o' & [= <-] & H). congruence.
    + intros (o' & [= <-] & H). congruence.
  - split; [discriminate | intros (o & [=] & _)].
Qed.

(** C5.  Whenever, after the defaults taken from the environment are merged
    under the caller's options, the driver factory, the API secret or the
    backing-store type is missing, [new CubejsServerCore(options)] throws the
    configuration error, and it has done nothing to the outside world by
    then: no file repository, no analytics client, no listener. *)
Theorem construct_requires_options (env : gmap string string)
    (machineId : string) (arg : option options) :
  incomplete (withDefaults env arg) →
  construct env machineId arg = (Throw ConfigError, []).
Proof.
  unfold incomplete, construct.
  intros [H|[H|H]]; rewrite H; simpl.
  - reflexivity.
  - rewrite orb_true_r. reflexivity.
  - rewrite orb_true_r. reflexivity.
Qed.

Lemma construct_requires_options_witness :
  construct ∅ "machine"
    (Some {| o_driverFactory := Undef; o_apiSecret := Val "secret";
             o_dbType := Val "postgres"; o_devServer := Unset;
             o_schemaPath := Unset |})
  = (Throw ConfigError, []).
Proof.
  apply (construct_requires_options ∅ "machine").
  left. reflexivity.
Defined.

Example construct_without_secret :
  construct {["CUBEJS_DB_TYPE" := "postgres"]} "machine" None
  = (Throw ConfigError, []).
Proof. reflexivity. Qed.

Example construct_without_type :
  construct {["CUBEJS_API_SECRET" := "secret"]} "machine" (Some no_options)
  = (Throw ConfigError, []).
Proof. reflexivity. Qed.

Example construct_from_environment :
  fst (construct {["CUBEJS_API_SECRET" := "secret"]}
         "machine"
         (Some {| o_driverFactory := Unset; o_apiSecret := Unset;
                  o_dbType := Val "mysql"; o_devServer := Val false;
                  o_schemaPath := Unset |}))
  = Normal {| this_options :=
                {| driverFactory := Some DefaultFactory;
                   apiSecret := Some "secret"; dbType := Some "mysql";
                   devServer := Some false; schemaPath := None |};
              this_driverFactory := Some DefaultFactory;
              this_apiSecret := Some "secret";
              this_schemaPath := "schema";
              this_dbType := Some "mysql";
              this_anonymousId := None;
              this_driver := Driver.fresh |}.
Proof. reflexivity. Qed.

(** ** Telemetry *)

Lemma catch_all_not_rejected (p : promise unit) (e : error) :
  catch_all p ≠ Rejected e.
Proof. destruct p; discriminate. Qed.

Lemma event_settle_cases (k : sink) (name : string) :
  fst (event_settle k name) = Fulfilled tt ∨ fst (event_settle k name) = Pending.
Proof.
  unfold event_settle, event_body.
  destruct (track k name); [destruct (flush k name)| |]; simpl; auto.
Qed.

(** The sink is handed the event before anything else happens. *)
Lemma event_tracks_first (k : sink) (name : string) (aid err : option string) :
  ∃ rest, snd (event k name aid err) = ETrack name aid err :: rest ∧
          (rest = [] ∨ rest = [EFlush]).
Proof.
  unfold event, event_settle, event_body, event_call.
  destruct (track k name); [destruct (flush k name)| |]; simpl; eauto.
Qed.

(** C9.  Whatever the event and whatever the sink does at delivery and at
    flush, the promise [this.event] returns is never rejected (and, being an
    [async] function, it never throws at the call): it is fulfilled, or still
    pending when the sink never answers.  The four endpoints that call it do
    not look at that promise: what they answer, what they do, the driver
    cache and the files they leave are the same for any two sinks, and the
    promise they left behind is not rejected either. *)
Theorem event_never_fails (k : sink) (name : string) (aid err : option string) :
  (∀ e, fst (event k name aid err) ≠ Rejected e) ∧
  (fst (event k name aid err) = Fulfilled tt ∨
   fst (event k name aid err) = Pending) ∧
  (∀ k' t env w c fs now tables,
     let same (a b : outcome) :=
       response a = response b ∧ effects a = effects b ∧
       driver_after a = driver_after b ∧ fs_after a = fs_after b in
     same (context_handler t k env c fs now) (context_handler t k' env c fs now) ∧
     same (db_schema_handler t w k c fs) (db_schema_handler t w k' c fs) ∧
     same (files_handler t k c fs) (files_handler t k' c fs) ∧
     same (generate_schema_handler t w k c fs tables)
          (generate_schema_handler t w k' c fs tables)) ∧
  (∀ t env w c fs now tables e,
     background (context_handler t k env c fs now) ≠ Rejected e ∧
     background (db_schema_handler t w k c fs) ≠ Rejected e ∧
     background (files_handler t k c fs) ≠ Rejected e ∧
     background (generate_schema_handler t w k c fs tables) ≠ Rejected e).
Proof.
  split; [|split; [|split]].
  - intros e. apply catch_all_not_rejected.
  - apply event_settle_cases.
  - intros k' t env w c fs now tables same. subst same. simpl.
    unfold db_schema_handler, generate_schema_handler.
    destruct (load_schema t w (this_driver c)) as [s' [ts|e|]]; simpl; tauto.
  - intros t env w c fs now tables e.
    unfold db_schema_handler, generate_schema_handler.
    destruct (load_schema t w (this_driver c)) as [s' [ts|e'|]]; simpl;
      repeat split; apply catch_all_not_rejected.
Qed.

Example event_sink_down :
  event {| track := fun _ => RejectsWith (Raised 7); flush := fun _ => Resolves |}
        "Dev Server Start" (Some "machine") None
  = (Fulfilled tt, [ETrack "Dev Server Start" (Some "machine") None]).
Proof. reflexivity. Qed.

Example event_flush_fails :
  event {| track := fun _ => Resolves; flush := fun _ => RejectsWith (Raised 7) |}
        "Dev Server Start" (Some "machine") None
  = (Fulfilled tt, [ETrack "Dev Server Start" (Some "machine") None; EFlush]).
Proof. reflexivity. Qed.

(** ** The context endpoint *)

Lemma construct_dev_fields (env : gmap string string) (machineId : string)
    (arg : option options) (c : CubejsServerCore) :
  fst (construct env machineId arg) = Normal c →
  this_apiSecret c = apiSecret (withDefaults env arg) ∧
  truthy_str (this_apiSecret c) = true ∧
  this_options c = withDefaults env arg ∧
  (truthy_bool (devServer (this_options c)) = true →
   this_anonymousId c = Some machineId).
Proof.
  unfold construct.
  destruct (truthy_ref (driverFactory (withDefaults env arg)));
    [|discriminate].
  destruct (truthy_str (apiSecret (withDefaults env arg))) eqn:Hs;
    [|discriminate].
  destruct (truthy_str (dbType (withDefaults env arg)));
    [|discriminate].
  cbv zeta. cbn [negb orb fst]. intros [= <-].
  cbn [this_apiSecret this_options this_anonymousId].
  repeat split; [exact Hs|].
  intros H.
  change (truthy_bool (spread _ _)) with (truthy_bool (devServer (withDefaults env arg))).
  rewrite H. reflexivity.
Qed.

Lemma apiUrl_configured (env : gmap string string) (url : string) :
  env !! "CUBEJS_API_URL" = Some url → url ≠ "" → apiUrl env = url.
Proof.
  intros Hu Hne. unfold apiUrl, default_str, or_str. rewrite Hu. simpl.
  destruct (String.eqb_spec url ""); [contradiction|reflexivity].
Qed.

(** C8, as the code has it.  The body the context endpoint answers with has
    the fields cubejsToken, apiUrl and anonymousId, in that order: the token
    is signed at the request with the API secret of the core and the expiry
    '1d' (one day), apiUrl is the API URL of the environment the routes were
    registered in, and anonymousId is the machine id the core took when it
    was constructed in dev mode. *)
Theorem context_response (t : devtools) (k : sink)
    (env0 env : gmap string string) (machineId : string)
    (arg : option options) (c : CubejsServerCore) (fs : gmap string string) (now : nat) :
  fst (construct env0 machineId arg) = Normal c →
  truthy_bool (devServer (this_options c)) = true →
  response (context_handler t k env c fs now) =
    Fulfilled
      [ ("cubejsToken",
         JStr (jwt_sign t (apiSecret (withDefaults env0 arg)) "1d" now));
        ("apiUrl", JStr (apiUrl env));
        ("anonymousId", JStr machineId) ] ∧
  In (ESign (apiSecret (withDefaults env0 arg)) "1d")
     (effects (context_handler t k env c fs now)) ∧
  (∀ url, env !! "CUBEJS_API_URL" = Some url → url ≠ "" → apiUrl env = url).
Proof.
  intros Hc Hdev.
  destruct (construct_dev_fields _ _ _ _ Hc) as (Hs & _ & _ & Hid).
  specialize (Hid Hdev). split; [|split].
  - simpl. rewrite Hs, Hid. reflexivity.
  - simpl. rewrite Hs. right. left. reflexivity.
  - apply apiUrl_configured.
Qed.

Lemma context_response_witness :
  response (context_handler demo_tools quiet_sink
              {["CUBEJS_API_URL" := "https://api.example"]}
              (demo_core Unset) ∅ 5) =
    Fulfilled [ ("cubejsToken", JStr "jwt:1d");
                ("apiUrl", JStr "https://api.example");
                ("anonymousId", JStr "machine") ].
Proof.
  refine (proj1 (context_response demo_tools quiet_sink ∅
                   {["CUBEJS_API_URL" := "https://api.example"]} "machine"
                   (Some (demo_options Unset)) (demo_core Unset) ∅ 5 _ _)).
  - reflexivity.
  - reflexivity.
Defined.

(** C8, as the specification words it, fails: the body has no field named
    token. *)
Lemma context_response_has_no_token :
  ¬ ∃ body v,
      response (context_handler demo_tools quiet_sink ∅ (demo_core Unset) ∅ 5)
        = Fulfilled body ∧
      In ("token", v) body.
Proof.
  intros (body & v & [= <-] & Hin). simpl in Hin.
  destruct Hin as [H|[H|[H|[]]]]; discriminate H.
Qed.

(** ** Scaffold generation *)

Lemma write_all_other (t : devtools) (files : list file)
    (fs : gmap string string) (p : string) :
  (∀ f, In f files → target f ≠ p) →
  fold_left (write_one t) files fs !! p = fs !! p.
Proof.
  revert fs. induction files as [|f files IH]; intros fs Hp; simpl; [reflexivity|].
  rewrite IH by (intros g Hg; apply Hp; right; exact Hg).
  unfold write_one. destruct (writeFile t (target f)); try reflexivity.
  apply lookup_insert_ne. apply Hp. left. reflexivity.
Qed.

(** No rollback: a file whose write succeeded is on the disk afterwards,
    whatever happened to the other writes. *)
Lemma write_all_keeps (t : devtools) (files : list file)
    (fs : gmap string string) (f : file) :
  NoDup (map target files) →
  In f files →
  writeFile t (target f) = Resolves →
  fold_left (write_one t) files fs !! target f = Some (content f).
Proof.
  revert fs. induction files as [|g files IH]; intros fs Hnd Hin Hw; [destruct Hin|].
  simpl in Hnd. apply NoDup_cons in Hnd as [Hg Hnd]. simpl.
  destruct Hin as [->|Hin].
  - rewrite write_all_other.
    + unfold write_one. rewrite Hw. apply lookup_insert_eq.
    + intros h Hh Heq. apply Hg. rewrite <- Heq.
      apply list_elem_of_In, in_map, Hh.
  - apply IH; assumption.
Qed.

(** The telemetry event goes out before anything is written. *)
Lemma generate_schema_event_first (t : devtools) (w : Driver.world) (k : sink)
    (c : CubejsServerCore) (fs : gmap string string) (tables : list string) :
  ∃ rest,
    effects (generate_schema_handler t w k c fs tables)
      = ETrack "Dev Server Generate Schema" (this_anonymousId c) None :: rest.
Proof.
  unfold generate_schema_handler.
  destruct (load_schema t w (this_driver c)) as [s' [ts|e|]]; simpl; eauto.
Qed.

(** Once the schema is there, each generated file is written, in the order
    generated, under the directory named schema and its reported name; and
    the files are the answer when every write succeeds. *)
Lemma generate_schema_writes (t : devtools) (w : Driver.world) (k : sink)
    (c : CubejsServerCore) (fs : gmap string string) (tables : list string)
    (s' : Driver.state) (ts : nat) :
  load_schema t w (this_driver c) = (s', Fulfilled ts) →
  let files := generateFilesByTableNames t ts tables in
  let r := generate_schema_handler t w k c fs tables in
  effects r =
    ETrack "Dev Server Generate Schema" (this_anonymousId c) None ::
    ERequire "@cubejs-backend/schema-compiler/scaffolding/ScaffoldingTemplate" ::
    map (fun f => EWriteFile (path_join "schema" (fileName f)) (content f)) files ∧
  ((∀ f, In f files → writeFile t (target f) = Resolves) →
   response r = Fulfilled [("files", JFiles files)]).
Proof.
  intros Hl files r. subst r. unfold generate_schema_handler. rewrite Hl.
  simpl. split; [reflexivity|]. fold files. intros Hall.
  assert (Hp : promise_all (map (fun f => writeFile t (target f)) files)
               = Fulfilled tt).
  { induction files as [|f l IH]; simpl; [reflexivity|].
    rewrite (Hall f) by (left; reflexivity).
    rewrite IH by (intros g Hg; apply Hall; right; exact Hg). reflexivity. }
  rewrite Hp. reflexivity.
Qed.

(** With the default schema path, that directory is the core's own. *)
Lemma target_default (c : CubejsServerCore) (f : file) :
  this_schemaPath c = "schema" →
  target f = path_join (this_schemaPath c) (fileName f).
Proof. intros ->. reflexivity. Qed.

Example generate_schema_partial_failure :
  let r := generate_schema_handler (failing_disk "schema/users.js") demo_world
             quiet_sink (demo_core Unset) ∅ ["orders"; "users"] in
  response r = Rejected (Raised 13) ∧
  fs_after r !! "schema/orders.js" = Some "cube:orders" ∧
  fs_after r !! "schema/users.js" = None.
Proof. vm_compute. auto. Qed.

(** C7, at a core configured with [schemaPath: 'model'].  The core keeps its
    schema files under model (that is where its file repository reads), yet
    the file generated for the table orders is written under the directory
    named schema, and nothing appears under model. *)
Theorem generate_schema_ignores_schemaPath :
  let c := demo_core (Val "model") in
  let r := generate_schema_handler demo_tools demo_world quiet_sink c ∅ ["orders"] in
  this_schemaPath c = "model" ∧
  In (ENewFileRepository "model")
     (snd (construct ∅ "machine" (Some (demo_options (Val "model"))))) ∧
  response r = Fulfilled
    [("files", JFiles [{| fileName := "orders.js"; content := "cube:orders" |}])] ∧
  effects r =
    [ ETrack "Dev Server Generate Schema" (Some "machine") None;
      ERequire "@cubejs-backend/schema-compiler/scaffolding/ScaffoldingTemplate";
      EWriteFile "schema/orders.js" "cube:orders" ] ∧
  fs_after r !! "schema/orders.js" = Some "cube:orders" ∧
  fs_after r !! path_join (this_schemaPath c) "orders.js" = None.
Proof. vm_compute. intuition. Qed.

(** ** The driver cache *)

Module DriverFacts.
Import Driver.

Lemma factoryCalls_record (ev : call_event) (s : state) :
  factoryCalls (record ev s) =
    if is_factory ev then S (factoryCalls s) else factoryCalls s.
Proof.
  unfold factoryCalls, record. simpl. rewrite filter_app, length_app.
  destruct (is_factory ev) eqn:He.
  - rewrite filter_cons_True by exact He. simpl. lia.
  - rewrite filter_cons_False by congruence. simpl. lia.
Qed.

Lemma testCalls_record (ev : call_event) (s : state) :
  testCalls (record ev s) =
    if is_test ev then S (testCalls s) else testCalls s.
Proof.
  unfold testCalls, record. simpl. rewrite filter_app, length_app.
  destruct (is_test ev) eqn:He.
  - rewrite filter_cons_True by exact He. simpl. lia.
  - rewrite filter_cons_False by congruence. simpl. lia.
Qed.

Lemma factoryCalls_store (d : instance) (s : state) :
  factoryCalls (store d s) = factoryCalls s.
Proof.
  unfold factoryCalls, store. simpl. rewrite filter_app, length_app.
  rewrite filter_cons_False by (simpl; congruence). simpl. lia.
Qed.

Lemma testCalls_store (d : instance) (s : state) :
  testCalls (store d s) = testCalls s.
Proof.
  unfold testCalls, store. simpl. rewrite filter_app, length_app.
  rewrite filter_cons_False by (simpl; congruence). simpl. lia.
Qed.

Lemma stored_record (ev : call_event) (s : state) :
  stored (record ev s) =
    stored s ++ match ev with EStore d => [d] | _ => [] end.
Proof.
  unfold stored, record. simpl. rewrite omap_app. destruct ev; reflexivity.
Qed.

Lemma stored_store (d : instance) (s : state) :
  stored (store d s) = stored s ++ [d].
Proof. unfold stored, store. simpl. rewrite omap_app. reflexivity. Qed.

Create Rewrite HintDb calls.
#[local] Hint Rewrite factoryCalls_record testCalls_record factoryCalls_store
  testCalls_store stored_record stored_store : calls.

(** ** What one call does, case by case *)

(** With a driver in the cache, the call answers with it and touches
    nothing. *)
Lemma getDriver_cached (w : world) (s : state) (d : instance) :
  driver s = Some d → getDriver w s = (s, Fulfilled (Some d)).
Proof. intros H. unfold getDriver, getDriver_call. rewrite H. reflexivity. Qed.

(** With no driver in the cache, the call always invokes the factory. *)
Lemma getDriver_call_invokes_factory (w : world) (s : state) :
  driver s = None →
  factoryCalls (fst (getDriver_call w s)) = S (factoryCalls s) ∧
  driver (fst (getDriver_call w s)) = None ∧
  stored (fst (getDriver_call w s)) = stored s.
Proof.
  intros H. unfold getDriver_call. rewrite H. simpl.
  destruct (driverFactory w (factoryCalls s)) as [[d|]|e]; simpl;
    [destruct (testConnection w d _) as [|e|o]; simpl| |];
    autorewrite with calls; simpl; rewrite ?app_nil_r; auto.
Qed.

(** It goes on to the connection test exactly when the factory returned an
    object that has one. *)
Lemma getDriver_call_invokes_test (w : world) (s : state) (d : instance) :
  driver s = None →
  driverFactory w (factoryCalls s) = Normal (Some d) →
  testConnection w d (testCalls s) ≠ NoMethod →
  testCalls (fst (getDriver_call w s)) = S (testCalls s) ∧
  ETest d (testCalls s) ∈ trace (fst (getDriver_call w s)).
Proof.
  intros H Hf Ht. unfold getDriver_call. rewrite H, Hf. simpl.
  rewrite testCalls_record. simpl.
  destruct (testConnection w d (testCalls s)) as [|e|o]; [congruence| |];
    simpl; rewrite testCalls_record, testCalls_record; simpl;
    (split; [reflexivity|]); set_solver.
Qed.

Lemma tested_mono (w : world) (s s' : state) (d : instance) :
  (∀ ev, ev ∈ trace s → ev ∈ trace s') → tested w s d → tested w s' d.
Proof. intros Hsub (j & Hj & Ht). exists j. auto. Qed.

Lemma trace_getDriver_call (w : world) (s : state) (ev : call_event) :
  ev ∈ trace s → ev ∈ trace (fst (getDriver_call w s)).
Proof.
  intros Hev. unfold getDriver_call.
  destruct (negb (truthy_ref (driver s))); [|exact Hev].
  destruct (driverFactory w (factoryCalls s)) as [[d|]|e]; simpl;
    [destruct (testConnection w d _) as [|e|o]; simpl| |]; set_solver.
Qed.

Lemma trace_getDriver_resume (s : state) (t : task) (ev : call_event) :
  ev ∈ trace s → ev ∈ trace (fst (getDriver_resume s t)).
Proof.
  intros Hev. destruct t as [d [|e|]|r]; simpl; set_solver.
Qed.

(** A call left waiting has made its connection test, and waits for what
    that test answers. *)
Lemma getDriver_call_awaiting (w : world) (s : state) (d : instance) (o : settle) :
  snd (getDriver_call w s) = Awaiting d o →
  ∃ j, ETest d j ∈ trace (fst (getDriver_call w s)) ∧
       testConnection w d j = Returns o.
Proof.
  unfold getDriver_call.
  destruct (negb (truthy_ref (driver s))); [|discriminate].
  destruct (driverFactory w (factoryCalls s)) as [[d'|]|e]; simpl;
    try discriminate.
  destruct (testConnection w d' _) as [|e|o'] eqn:Ht; simpl; try discriminate.
  intros [= -> ->]. eexists. split; [|exact Ht]. set_solver.
Qed.

Lemma driver_getDriver_call (w : world) (s : state) :
  driver (fst (getDriver_call w s)) = driver s.
Proof.
  unfold getDriver_call.
  destruct (negb (truthy_ref (driver s))); [|reflexivity].
  destruct (driverFactory w (factoryCalls s)) as [[d|]|e]; simpl;
    [destruct (testConnection w d _) as [|e|o]; simpl| |]; reflexivity.
Qed.

(** ** The cache under any interleaving of calls *)

Lemma step_tested (w : world) (sys : system) (a : action) :
  (∀ d, driver (core sys) = Some d → tested w (core sys) d) →
  (∀ i d, tasks sys !! i = Some (Awaiting d Resolves) → tested w (core sys) d) →
  (∀ d, driver (core (step w sys a)) = Some d → tested w (core (step w sys a)) d) ∧
  (∀ i d, tasks (step w sys a) !! i = Some (Awaiting d Resolves) →
          tested w (core (step w sys a)) d).
Proof.
  intros Hc Ht. destruct a as [|i]; simpl.
  - pose proof (driver_getDriver_call w (core sys)) as Hd.
    pose proof (trace_getDriver_call w (core sys)) as Hm.
    pose proof (getDriver_call_awaiting w (core sys)) as Ha.
    destruct (getDriver_call w (core sys)) as [s' t]. simpl in *. split.
    + intros d H. rewrite Hd in H. eapply tested_mono; eauto.
    + intros i d H. apply lookup_app_Some in H as [H|[_ H]].
      * eapply tested_mono; eauto.
      * destruct (i - length (tasks sys)) as [|n]; [|destruct n; discriminate H].
        simpl in H. injection H as ->.
        destruct (Ha d Resolves eq_refl) as (j & Hj & Hr). exists j. auto.
  - destruct (tasks sys !! i) as [t|] eqn:Hi; [|auto].
    pose proof (trace_getDriver_resume (core sys) t) as Hm.
    assert (Hdrv : ∀ d, driver (fst (getDriver_resume (core sys) t)) = Some d →
                        tested w (core sys) d).
    { destruct t as [d' [|e|]|r]; simpl; auto.
      intros d [= <-]. eapply Ht. exact Hi. }
    assert (Hdone : ∀ d, snd (getDriver_resume (core sys) t) = Awaiting d Resolves → False).
    { destruct t as [d' [|e|]|r]; simpl; intros d H; discriminate H. }
    destruct (getDriver_resume (core sys) t) as [s' t']. simpl in *. split.
    + intros d H. eapply tested_mono; eauto.
    + intros j d H. destruct (decide (i = j)) as [<-|Hne].
      * rewrite list_lookup_insert_eq in H by (eapply lookup_lt_Some; eauto).
        injection H as ->. destruct (Hdone d eq_refl).
      * rewrite list_lookup_insert_ne in H by exact Hne.
        eapply tested_mono; eauto.
Qed.

Lemma run_tested (w : world) (acts : list action) (sys : system) :
  (∀ d, driver (core sys) = Some d → tested w (core sys) d) →
  (∀ i d, tasks sys !! i = Some (Awaiting d Resolves) → tested w (core sys) d) →
  ∀ d, driver (core (run w acts sys)) = Some d → tested w (core (run w acts sys)) d.
Proof.
  revert sys. induction acts as [|a acts IH]; intros sys Hc Ht; simpl; [exact Hc|].
  destruct (step_tested w sys a Hc Ht) as [Hc' Ht']. apply IH; assumption.
Qed.

Lemma getDriver_split (w : world) (s : state) :
  getDriver w s =
    (fst (getDriver_resume (fst (getDriver_call w s)) (snd (getDriver_call w s))),
     answer (snd (getDriver_resume (fst (getDriver_call w s))
                                    (snd (getDriver_call w s))))).
Proof.
  unfold getDriver. destruct (getDriver_call w s) as [s1 t1]. simpl.
  destruct (getDriver_resume s1 t1) as [s2 t2]. reflexivity.
Qed.

Lemma calls_getDriver_resume (s : state) (t : task) :
  factoryCalls (fst (getDriver_resume s t)) = factoryCalls s ∧
  testCalls (fst (getDriver_resume s t)) = testCalls s.
Proof.
  destruct t as [d [|e|]|r]; simpl; autorewrite with calls; auto.
Qed.

(** The call that finds no driver, gets one from the factory and starts its
    connection test. *)
Lemma getDriver_call_pending (w : world) (s : state) (d : instance) (o : settle) :
  driver s = None →
  driverFactory w (factoryCalls s) = Normal (Some d) →
  testConnection w d (testCalls s) = Returns o →
  getDriver_call w s =
    (record (ETest d (testCalls s)) (record (EFactory (factoryCalls s)) s),
     Awaiting d o).
Proof.
  intros H Hf Ht. unfold getDriver_call. rewrite H, Hf. simpl.
  rewrite testCalls_record. simpl. rewrite Ht. reflexivity.
Qed.

(** A call during which the factory or the connection test fails is
    rejected with that failure and leaves the cache as it found it. *)
Lemma getDriver_rejects (w : world) (s0 : state) (e : error) :
  driver s0 = None →
  fails w s0 e →
  ∃ s1, getDriver w s0 = (s1, Rejected e) ∧ driver s1 = None ∧
        stored s1 = stored s0 ∧
        factoryCalls s1 = S (factoryCalls s0).
Proof.
  intros H0 Hfail. unfold getDriver, getDriver_call. rewrite H0. simpl.
  rewrite testCalls_record. simpl.
  destruct Hfail as [Hf|(d & Hf & [Ht|Ht])]; rewrite Hf; simpl;
    [|rewrite Ht; simpl..]; eexists; (split; [reflexivity|]);
    autorewrite with calls; simpl; rewrite ?app_nil_r; auto.
Qed.

(** C1.  Take a core with no driver cached and call [getDriver] twice, one
    call after the other, the first one succeeding.  Then the first call
    invoked the factory once and the connection test once, on the object the
    factory made, and cached that object; the second call answers with the
    same object and does nothing else, so over the two calls the factory and
    the test ran exactly once each.  And in every interleaving of calls, an
    object found in the cache has passed a connection test. *)
Theorem getDriver_twice (w : world) (s0 : state) :
  driver s0 = None →
  (∀ s1 r, getDriver w s0 = (s1, Fulfilled r) →
     ∃ d, r = Some d ∧
          driverFactory w (factoryCalls s0) = Normal (Some d) ∧
          testConnection w d (testCalls s0) = Returns Resolves ∧
          factoryCalls s1 = S (factoryCalls s0) ∧
          testCalls s1 = S (testCalls s0) ∧
          stored s1 = stored s0 ++ [d] ∧
          driver s1 = Some d ∧
          getDriver w s1 = (s1, Fulfilled (Some d))) ∧
  (∀ acts d, driver (core (run w acts (boot s0))) = Some d →
             tested w (core (run w acts (boot s0))) d).
Proof.
  intros H0. split.
  - intros s1 r. unfold getDriver, getDriver_call. rewrite H0. simpl.
    rewrite testCalls_record. simpl.
    destruct (driverFactory w (factoryCalls s0)) as [[d|]|e] eqn:Hf; simpl;
      try discriminate.
    destruct (testConnection w d (testCalls s0)) as [|e|[|e|]] eqn:Ht; simpl;
      try discriminate.
    intros [= <- <-]. exists d.
    autorewrite with calls. simpl. rewrite ?app_nil_r.
    repeat split; try reflexivity; assumption.
  - intros acts d. apply run_tested; simpl.
    + intros d'. rewrite H0. discriminate.
    + intros i d' Hi. rewrite lookup_nil in Hi. discriminate.
Qed.

Lemma getDriver_twice_witness :
  ∃ d, driver (fst (getDriver demo_world fresh)) = Some d ∧
       getDriver demo_world (fst (getDriver demo_world fresh))
         = (fst (getDriver demo_world fresh), Fulfilled (Some d)).
Proof.
  destruct (getDriver_twice demo_world fresh eq_refl) as [Hseq _].
  destruct (Hseq (fst (getDriver demo_world fresh)) (Some 0) eq_refl)
    as (d & _ & _ & _ & _ & _ & _ & Hd & Hsecond).
  exists d. split; [exact Hd | exact Hsecond].
Defined.

(** C2.  Take a core with no driver cached and a call of [getDriver] during
    which the factory throws [e], or the connection test throws or rejects
    with [e].  The call is rejected with [e], the cache is still empty and
    nothing was ever assigned to it.  The next call starts over: it invokes
    the factory again, makes the connection test again whenever the factory
    returns an object that has one, and succeeds when that test resolves. *)
Theorem getDriver_failure_not_cached (w : world) (s0 : state) (e : error) :
  driver s0 = None →
  fails w s0 e →
  ∃ s1, getDriver w s0 = (s1, Rejected e) ∧
        driver s1 = None ∧
        stored s1 = stored s0 ∧
        factoryCalls s1 = S (factoryCalls s0) ∧
        factoryCalls (fst (getDriver w s1)) = S (factoryCalls s1) ∧
        (∀ d, driverFactory w (factoryCalls s1) = Normal (Some d) →
              testConnection w d (testCalls s1) ≠ NoMethod →
              testCalls (fst (getDriver w s1)) = S (testCalls s1)) ∧
        (∀ d, driverFactory w (factoryCalls s1) = Normal (Some d) →
              testConnection w d (testCalls s1) = Returns Resolves →
              snd (getDriver w s1) = Fulfilled (Some d) ∧
              driver (fst (getDriver w s1)) = Some d).
Proof.
  intros H0 Hfail.
  destruct (getDriver_rejects w s0 e H0 Hfail) as (s1 & Hrun & H1 & Hst & Hfc).
  exists s1.
  split; [exact Hrun|]. split; [exact H1|]. split; [exact Hst|].
  split; [exact Hfc|]. rewrite getDriver_split. simpl.
  destruct (calls_getDriver_resume (fst (getDriver_call w s1))
              (snd (getDriver_call w s1))) as [Hrf Hrt].
  split; [|split].
  - rewrite Hrf. apply getDriver_call_invokes_factory, H1.
  - intros d Hf Ht. rewrite Hrt.
    apply (getDriver_call_invokes_test w s1 d H1 Hf Ht).
  - intros d Hf Ht. rewrite (getDriver_call_pending w s1 d Resolves H1 Hf Ht).
    simpl. auto.
Qed.

Lemma getDriver_failure_not_cached_witness :
  ∃ s1, getDriver flaky_world fresh = (s1, Rejected (Raised 1)) ∧
        driver s1 = None.
Proof.
  destruct (getDriver_failure_not_cached flaky_world fresh (Raised 1) eq_refl)
    as (s1 & Hrun & Hd & _).
  - left. reflexivity.
  - exists s1. split; [exact Hrun | exact Hd].
Defined.

Example getDriver_retries :
  let s1 := fst (getDriver flaky_world fresh) in
  let s2 := fst (getDriver flaky_world s1) in
  snd (getDriver flaky_world fresh) = Rejected (Raised 1) ∧
  snd (getDriver flaky_world s1) = Rejected (Raised 2) ∧
  getDriver flaky_world s2 =
    ({| driver := Some 2;
        trace := [EFactory 0; EFactory 1; ETest 1 0;
                  EFactory 2; ETest 2 1; EStore 2] |},
     Fulfilled (Some 2)).
Proof. vm_compute. auto. Qed.

(** ** Calls in flight together *)

Lemma stored_getDriver_call (w : world) (s : state) :
  stored (fst (getDriver_call w s)) = stored s.
Proof.
  unfold getDriver_call.
  destruct (negb (truthy_ref (driver s))); [|reflexivity].
  destruct (driverFactory w (factoryCalls s)) as [[d|]|e]; simpl;
    [destruct (testConnection w d _) as [|e|o]; simpl| |];
    autorewrite with calls; simpl; rewrite ?app_nil_r; reflexivity.
Qed.

(** As long as nothing settles, every call finds the cache empty and
    invokes the factory. *)
Lemma calls_before_settle (w : world) (n : nat) (sys : system) :
  driver (core sys) = None →
  factoryCalls (core (run w (replicate n Call) sys))
    = factoryCalls (core sys) + n ∧
  driver (core (run w (replicate n Call) sys)) = None ∧
  length (tasks (run w (replicate n Call) sys)) = length (tasks sys) + n.
Proof.
  revert sys. induction n as [|n IH]; intros sys H; simpl.
  - repeat split; [lia | exact H | lia].
  - destruct (getDriver_call_invokes_factory w (core sys) H) as (Hf & Hd & _).
    destruct (getDriver_call w (core sys)) as [s' t]. simpl in *.
    destruct (IH {| core := s'; tasks := tasks sys ++ [t] |} Hd) as (IHf & IHd & IHl).
    simpl in *. rewrite IHf, IHl, Hf, length_app. simpl.
    repeat split; [lia | exact IHd | lia].
Qed.

(** The cache holds the instance assigned last. *)
Lemma step_last_stored (w : world) (sys : system) (a : action) :
  driver (core sys) = last (stored (core sys)) →
  driver (core (step w sys a)) = last (stored (core (step w sys a))).
Proof.
  intros H. destruct a as [|i]; simpl.
  - pose proof (driver_getDriver_call w (core sys)) as Hd.
    pose proof (stored_getDriver_call w (core sys)) as Hs.
    destruct (getDriver_call w (core sys)) as [s' t]. simpl in *. congruence.
  - destruct (tasks sys !! i) as [t|]; [|exact H].
    destruct t as [d [|e|]|r]; simpl; try exact H.
    rewrite stored_store, last_snoc. reflexivity.
Qed.

Lemma run_last_stored (w : world) (acts : list action) (sys : system) :
  driver (core sys) = last (stored (core sys)) →
  driver (core (run w acts sys)) = last (stored (core (run w acts sys))).
Proof.
  revert sys. induction acts as [|a acts IH]; intros sys H; simpl; [exact H|].
  apply IH, step_last_stored, H.
Qed.

(** C3.  Take a core that never cached a driver.  Calls issued before
    anything settles each invoke the factory, so [n] calls make [n]
    invocations.  When two calls are issued before the first one's
    connection test resolves, each has its own object from the factory and
    its own connection test in flight; once both tests resolve, each caller
    gets its own object, and the cache holds the one assigned last (in
    either order of settling), the other assignment being overwritten.  In
    general, after any interleaving, the cache holds the instance assigned
    last. *)
Theorem concurrent_calls_race (w : world) (s0 : state) :
  driver s0 = None →
  stored s0 = [] →
  (∀ n, factoryCalls (core (run w (replicate n Call) (boot s0)))
          = factoryCalls s0 + n) ∧
  (∀ a b,
     driverFactory w (factoryCalls s0) = Normal (Some a) →
     testConnection w a (testCalls s0) = Returns Resolves →
     driverFactory w (S (factoryCalls s0)) = Normal (Some b) →
     testConnection w b (S (testCalls s0)) = Returns Resolves →
     let sys := run w [Call; Call] (boot s0) in
     tasks sys = [Awaiting a Resolves; Awaiting b Resolves] ∧
     driver (core sys) = None ∧
     factoryCalls (core sys) = factoryCalls s0 + 2 ∧
     testCalls (core sys) = testCalls s0 + 2 ∧
     (let f := run w [Settle 0; Settle 1] sys in
      tasks f = [Done (Fulfilled (Some a)); Done (Fulfilled (Some b))] ∧
      stored (core f) = [a; b] ∧
      driver (core f) = Some b) ∧
     (let f := run w [Settle 1; Settle 0] sys in
      tasks f = [Done (Fulfilled (Some a)); Done (Fulfilled (Some b))] ∧
      stored (core f) = [b; a] ∧
      driver (core f) = Some a)) ∧
  (∀ acts, driver (core (run w acts (boot s0)))
             = last (stored (core (run w acts (boot s0))))).
Proof.
  intros H0 Hs0. split; [|split].
  - intros n. apply (calls_before_settle w n (boot s0)). exact H0.
  - intros a b Hfa Hta Hfb Htb sys. subst sys. unfold run. simpl.
    rewrite (getDriver_call_pending w s0 a Resolves H0 Hfa Hta). simpl.
    rewrite (getDriver_call_pending w _ b Resolves); simpl;
      autorewrite with calls; simpl; try assumption; try reflexivity.
    simpl. autorewrite with calls. simpl. rewrite Hs0. simpl.
    repeat split; first [exact H0 | lia].
  - intros acts. apply run_last_stored. simpl. rewrite H0, Hs0. reflexivity.
Qed.

Lemma concurrent_calls_race_witness :
  driver (core (run demo_world [Call; Call; Settle 1; Settle 0] (boot fresh)))
    = Some 0 ∧
  driver (core (run demo_world [Call; Call; Settle 0; Settle 1] (boot fresh)))
    = Some 1.
Proof.
  destruct (concurrent_calls_race demo_world fresh eq_refl eq_refl)
    as (_ & Htwo & _).
  destruct (Htwo 0 1 eq_refl eq_refl eq_refl eq_refl)
    as (_ & _ & _ & _ & (_ & _ & Hab) & (_ & _ & Hba)).
  split; [exact Hba | exact Hab].
Defined.

Example race_trace :
  trace (core (run demo_world [Call; Call; Settle 1; Settle 0] (boot fresh)))
    = [EFactory 0; ETest 0 0; EFactory 1; ETest 1 1; EStore 1; EStore 0].
Proof. reflexivity. Qed.

End DriverFacts.

(** ** The default factory under [getDriver] *)

(** With the default factory, a placeholder credential makes every call of
    [getDriver] fail with the placeholder error, and nothing is cached. *)
Lemma getDriver_placeholder (env : gmap string string)
    (load : string -> completion Driver.instance)
    (custom : nat -> nat -> completion (option Driver.instance))
    (test : Driver.instance -> nat -> Driver.test_call)
    (c : CubejsServerCore) (cr v : string) (s : Driver.state) :
  this_driverFactory c = Some DefaultFactory →
  In cr credentials →
  env !! cr = Some v →
  String.prefix placeholderSubstr v = true →
  Driver.driver s = None →
  ∃ s1, Driver.getDriver (core_world env load custom test c) s
          = (s1, Rejected PlaceholderCredentialError) ∧
        Driver.driver s1 = None.
Proof.
  intros Hf Hin Hv Hp Hs.
  assert (Hthrow : checkEnvForPlaceholders env = Throw PlaceholderCredentialError).
  { apply checkEnvForPlaceholders_throws. exists cr. split; [exact Hin|].
    apply has_placeholder_iff. eauto. }
  destruct (DriverFacts.getDriver_rejects (core_world env load custom test c) s
              PlaceholderCredentialError Hs) as (s1 & Hrun & Hd & _).
  - left. simpl. rewrite Hf. unfold default_factory, createDriver.
    rewrite Hthrow. reflexivity.
  - eauto.
Qed.

(** With the default factory and a clean environment, an unknown type makes
    [getDriver] construct the JDBC driver. *)
Example getDriver_unknown_type :
  let env : gmap string string :=
    <["CUBEJS_API_SECRET" := "secret"]> {["CUBEJS_DB_TYPE" := "oracle"]} in
  let load m := if String.eqb m "@cubejs-backend/jdbc-driver"
                then Normal 7 else Throw (Raised 0) in
  ∃ c, fst (construct env "machine" None) = Normal c ∧
       this_driverFactory c = Some DefaultFactory ∧
       snd (Driver.getDriver
              (core_world env load (fun _ _ => Throw (Raised 0))
                 (fun _ _ => Driver.Returns Resolves) c)
              (this_driver c))
       = Fulfilled (Some 7).
Proof. eexists. split; [reflexivity|]. split; reflexivity. Qed.

(** ** The supervisor *)

Module SupervisorFacts.
Import Supervisor.

Lemma guidance_no_report (platform : string) (e : exn) :
  filter (fun ev => is_fatal_report ev = true) (guidance platform e) = [].
Proof.
  unfold guidance.
  destruct (truthy_str (message e) && _); [|reflexivity].
  destruct (Z.eqb (indexOf platform "win") 0); [reflexivity|].
  destruct (Z.eqb (indexOf platform "darwin") 0); reflexivity.
Qed.

Lemma fatal_reports_first (platform : string) (aid : option string)
    (s : process) (e : exn) :
  causeErrorPromise s = None →
  fatal_reports (on_uncaught platform aid s e) = S (fatal_reports s).
Proof.
  intros H. unfold fatal_reports, on_uncaught. rewrite H. simpl.
  rewrite filter_app, length_app.
  rewrite filter_cons_False by (simpl; congruence).
  rewrite filter_app, guidance_no_report. unfold event_call.
  rewrite filter_cons_True by reflexivity. simpl. lia.
Qed.

Lemma fatal_reports_later (platform : string) (aid : option string)
    (s : process) (e : exn) (p : nat) :
  causeErrorPromise s = Some p →
  fatal_reports (on_uncaught platform aid s e) = fatal_reports s.
Proof.
  intros H. unfold fatal_reports, on_uncaught. rewrite H. simpl.
  rewrite filter_app, length_app.
  rewrite filter_cons_False by (simpl; congruence).
  rewrite guidance_no_report. simpl. lia.
Qed.

Lemma init_coherent (k : sink) : coherent k init.
Proof.
  unfold coherent, init, fatal_reports. simpl.
  repeat split; try discriminate; auto.
  intros p Hp. apply not_elem_of_nil in Hp. destruct Hp.
Qed.

Lemma uncaught_coherent (platform : string) (aid : option string) (k : sink)
    (s : process) (e : exn) :
  exited s = None → coherent k s → coherent k (on_uncaught platform aid s e).
Proof.
  intros Hx (Hn & Hnone & Hsome & Hw & Hlen & Hset & Hex).
  destruct (causeErrorPromise s) as [p|] eqn:Hp.
  - destruct (Hsome p eq_refl) as [-> Hpos].
    pose proof (fatal_reports_later platform aid s e 0 Hp) as Hf.
    unfold coherent. rewrite Hf. unfold on_uncaught. rewrite Hp. simpl.
    split_and!.
    + exact Hn.
    + discriminate.
    + intros p [= <-]. split; [reflexivity | lia].
    + intros q Hq. apply elem_of_app in Hq as [Hq|Hq]; [auto|].
      apply list_elem_of_singleton in Hq. congruence.
    + rewrite length_app. simpl. lia.
    + exact Hset.
    + intros c Hc. congruence.
  - destruct (Hnone eq_refl) as [Ha Hst].
    pose proof (fatal_reports_first platform aid s e Hp) as Hf.
    unfold coherent. rewrite Hf. unfold on_uncaught. rewrite Hp. simpl.
    split_and!.
    + simpl in Hn. rewrite Hn. reflexivity.
    + discriminate.
    + intros p [= <-]. split; [exact Ha | lia].
    + intros q Hq. apply elem_of_app in Hq as [Hq|Hq].
      * apply Hw in Hq. discriminate Hq.
      * apply list_elem_of_singleton in Hq. congruence.
    + rewrite length_app. simpl. lia.
    + discriminate.
    + intros c Hc. congruence.
Qed.

Lemma settle_coherent (k : sink) (s : process) :
  exited s = None → coherent k s → coherent k (on_settle k s).
Proof.
  intros Hx Hs. unfold on_settle.
  destruct (causeErrorPromise s) as [p|] eqn:Hp; [|exact Hs].
  destruct (fst (event_settle k fatal)) as [[]|e|] eqn:Hev; try exact Hs.
  destruct Hs as (Hn & Hnone & Hsome & Hw & Hlen & Hset & Hex).
  unfold coherent, fatal_reports in *. simpl. rewrite Hp in *.
  split_and!; auto.
  - discriminate.
  - intros c Hc. congruence.
Qed.

Lemma resume_coherent (k : sink) (s : process) (i : nat) :
  exited s = None → coherent k s → coherent k (on_resume s i).
Proof.
  intros Hx Hs. unfold on_resume.
  destruct (waiting s !! i) as [p|] eqn:Hi; [|exact Hs].
  destruct (bool_decide (causeErrorPromise s = Some p) && settled s) eqn:Hb;
    [|exact Hs].
  apply andb_true_iff in Hb as [Hb Hst]. apply bool_decide_eq_true_1 in Hb.
  destruct Hs as (Hn & Hnone & Hsome & Hw & Hlen & Hset & Hex).
  unfold coherent, fatal_reports in *. simpl.
  rewrite filter_app, length_app.
  rewrite (filter_cons_False _ (EExit 1)) by (simpl; congruence).
  simpl. rewrite Nat.add_0_r.
  split_and!; auto.
  intros c [= <-]. split_and!; [reflexivity | exact Hst | apply last_snoc].
Qed.

Lemma step_coherent (platform : string) (aid : option string) (k : sink)
    (s : process) (a : occurrence) :
  coherent k s → coherent k (react platform aid k s a).
Proof.
  intros Hs. unfold react. destruct (exited s) as [c|] eqn:Hx; [exact Hs|].
  destruct a as [e| |i|].
  - apply uncaught_coherent; assumption.
  - apply settle_coherent; assumption.
  - apply resume_coherent; assumption.
  - exact Hs.
Qed.

Lemma run_coherent (platform : string) (aid : option string) (k : sink)
    (acts : list occurrence) (s : process) :
  coherent k s → coherent k (react_all platform aid k acts s).
Proof.
  revert s. induction acts as [|a acts IH]; intros s Hs; simpl; [exact Hs|].
  apply IH, step_coherent, Hs.
Qed.


Lemma arrivals_step (platform : string) (aid : option string) (k : sink)
    (s : process) (a : occurrence) :
  (arrivals s <= arrivals (react platform aid k s a))%nat ∧
  (arrivals (react platform aid k s a)
    <= arrivals s + (if is_uncaught a then 1 else 0))%nat ∧
  (exited s = None → is_uncaught a = true →
   (0 < arrivals (react platform aid k s a))%nat).
Proof.
  unfold react. destruct (exited s) as [c|]; [split_and!; [lia|lia|discriminate]|].
  destruct a as [e| |i|]; simpl.
  - unfold on_uncaught. destruct (negb _); simpl; split_and!; lia.
  - unfold on_settle.
    destruct (causeErrorPromise s); [destruct (fst _) as [[]| |]|]; simpl;
      split_and!; try lia; discriminate.
  - unfold on_resume. destruct (waiting s !! i); [destruct (_ && _)|]; simpl;
      split_and!; try lia; discriminate.
  - split_and!; try lia; discriminate.
Qed.

Lemma arrivals_run (platform : string) (aid : option string) (k : sink)
    (acts : list occurrence) (s : process) :
  coherent k s →
  (arrivals s <= arrivals (react_all platform aid k acts s))%nat ∧
  (arrivals (react_all platform aid k acts s) <= arrivals s + exceptions acts)%nat ∧
  ((0 < exceptions acts)%nat →
   (0 < arrivals (react_all platform aid k acts s))%nat).
Proof.
  revert s. induction acts as [|a acts IH]; intros s Hs; simpl.
  - unfold exceptions. simpl. split_and!; lia.
  - destruct (arrivals_step platform aid k s a) as (Hle & Hub & Hpos).
    destruct (IH _ (step_coherent platform aid k s a Hs)) as (IHle & IHub & IHpos).
    assert (He : exceptions (a :: acts)
                 = (if is_uncaught a then 1 else 0) + exceptions acts).
    { unfold exceptions. destruct (is_uncaught a) eqn:Ha.
      - rewrite filter_cons_True by exact Ha. reflexivity.
      - rewrite filter_cons_False by congruence. reflexivity. }
    rewrite He. split_and!; [lia | lia |].
    destruct (is_uncaught a) eqn:Ha; [|exact IHpos].
    intros _. destruct (exited s) as [c|] eqn:Hx.
    + destruct Hs as (_ & Hnone & Hsome & _ & _ & _ & Hex).
      destruct (Hex c Hx) as (_ & Hst & _).
      destruct (causeErrorPromise s) as [p|] eqn:Hp.
      * destruct (Hsome p eq_refl) as [_ Hpos']. lia.
      * destruct (Hnone eq_refl). congruence.
    + specialize (Hpos eq_refl eq_refl). lia.
Qed.

(** Once the report has settled, the first listener to go on exits the
    process with status 1. *)
Lemma settle_then_resume (platform : string) (aid : option string) (k : sink)
    (s : process) :
  coherent k s →
  (0 < arrivals s)%nat →
  fst (event_settle k fatal) = Fulfilled tt →
  exited (react_all platform aid k [Settle; Resume 0] s) = Some 1%Z.
Proof.
  intros Hs Hpos Hev. pose proof Hs as (_ & Hnone & Hsome & Hw & Hlen & _ & Hex).
  simpl. destruct (exited s) as [c|] eqn:Hx.
  - unfold react. rewrite Hx. simpl. rewrite Hx.
    destruct (Hex c eq_refl) as [-> _]. exact Hx.
  - unfold react at 2. rewrite Hx. destruct (causeErrorPromise s) as [p|] eqn:Hp;
      [|destruct (Hnone eq_refl); lia].
    destruct (Hsome p eq_refl) as [-> _].
    destruct (waiting s) as [|q l] eqn:Hwait; [simpl in Hlen; lia|].
    assert (Hq : q = 0).
    { assert (Hin : q ∈ q :: l) by apply list_elem_of_here.
      apply Hw in Hin. congruence. }
    subst q. unfold on_settle. rewrite Hp, Hev.
    unfold react. simpl. rewrite Hx. unfold on_resume. simpl.
    rewrite Hwait. simpl. reflexivity.
Qed.





(** Null and undefined exceptions, settlings and resumptions alone leave the
    listener as it was installed. *)
Lemma idle_without_value (platform : string) (aid : option string) (k : sink)
    (acts : list occurrence) :
  exceptions acts = 0 → react_all platform aid k acts init = init.
Proof.
  induction acts as [|a acts IH]; intros H; [reflexivity|].
  unfold exceptions in H. destruct a as [e| |i|].
  - rewrite filter_cons_True in H by reflexivity. discriminate H.
  - rewrite filter_cons_False in H by (simpl; congruence). apply IH, H.
  - rewrite filter_cons_False in H by (simpl; congruence). apply IH, H.
  - rewrite filter_cons_False in H by (simpl; congruence). apply IH, H.
Qed.




(** C4, at an uncaught exception whose value is null (or undefined).  The
    listener throws at its first statement, where it reads the stack of the
    value: it prints nothing, creates no report and awaits nothing, so no
    fatal-error event is sent and the process does not exit, not even once
    something settles or goes on; the same holds however many such exceptions
    arrive.  A later exception that carries a value is then the one that
    creates the report. *)
Theorem nullish_exception_unreported (platform : string) (aid : option string)
    (k : sink) :
  listener platform aid init Nullish = Throw (TypeError "stack") ∧
  (let s := react_all platform aid k [UncaughtNullish; Settle; Resume 0] init in
   fatal_reports s = 0 ∧ trace s = [] ∧ waiting s = [] ∧ exited s = None) ∧
  (∀ n, react_all platform aid k (replicate n UncaughtNullish) init = init) ∧
  (∀ e, causeErrorPromise
          (react_all platform aid k [UncaughtNullish; Uncaught e] init)
        = Some 0).
Proof.
  split; [reflexivity|]. split; [|split].
  - cbv zeta.
    rewrite (idle_without_value platform aid k
               [UncaughtNullish; Settle; Resume 0] eq_refl).
    repeat split.
  - intros n. apply idle_without_value. unfold exceptions.
    induction n as [|n IH]; [reflexivity|].
    simpl. rewrite filter_cons_False by (simpl; congruence). exact IH.
  - intros e. reflexivity.
Qed.

Example two_exceptions_trace :
  trace (react_all "darwin" (Some "machine") quiet_sink
           [Uncaught redis_down; Uncaught boom; Settle; Resume 1] init)
  = [ EConsole (LText "Error: Redis connection to 127.0.0.1:6379 failed");
      EConsole LRedisRequired; EConsole LRedisMac;
      ETrack "Dev Server Fatal Error" (Some "machine")
        (Some "Error: Redis connection to 127.0.0.1:6379 failed");
      EConsole (LText "{ message: 'boom' }");
      EExit 1 ].
Proof. reflexivity. Qed.

End SupervisorFacts.

(** * Further properties *)

(** ** The placeholder check, in full *)

Lemma has_placeholder_false (env : gmap string string) (c : string) :
  has_placeholder env c = false ↔
  ∀ v, env !! c = Some v → String.prefix placeholderSubstr v = false.
Proof.
  split.
  - intros H v Hv. destruct (String.prefix placeholderSubstr v) eqn:Hp; [|reflexivity].
    assert (has_placeholder env c = true) by (apply has_placeholder_iff; eauto).
    congruence.
  - intros H. destruct (has_placeholder env c) eqn:Hc; [|reflexivity].
    apply has_placeholder_iff in Hc as (v & Hv & Hp).
    rewrite (H v Hv) in Hp. discriminate.
Qed.

Lemma checkEnvForPlaceholders_ext (env env' : gmap string string) :
  (∀ c, In c credentials → env !! c = env' !! c) →
  checkEnvForPlaceholders env = checkEnvForPlaceholders env'.
Proof.
  intros H. unfold checkEnvForPlaceholders, credentials, has_placeholder. simpl.
  rewrite !H by (unfold credentials; simpl; tauto). reflexivity.
Qed.

(** X1.  The check has two outcomes only, and it passes exactly when none of
    the four credential variables holds a value that begins with the marker:
    a variable that is not set, is empty, or has the marker further inside,
    passes. *)
Theorem checkEnvForPlaceholders_decides (env : gmap string string) :
  (checkEnvForPlaceholders env = Normal tt ∨
   checkEnvForPlaceholders env = Throw PlaceholderCredentialError) ∧
  (checkEnvForPlaceholders env = Normal tt ↔
   ∀ c v, In c credentials → env !! c = Some v →
          String.prefix placeholderSubstr v = false).
Proof.
  split.
  - unfold checkEnvForPlaceholders. destruct (truthy_str _); auto.
  - split.
    + intros Hok c v Hin Hv.
      destruct (String.prefix placeholderSubstr v) eqn:Hp; [|reflexivity].
      assert (checkEnvForPlaceholders env = Throw PlaceholderCredentialError).
      { apply checkEnvForPlaceholders_throws. exists c. split; [exact Hin|].
        apply has_placeholder_iff. eauto. }
      congruence.
    + intros H. apply checkEnvForPlaceholders_passes.
      intros c Hin. apply has_placeholder_false. intros v Hv. eauto.
Qed.

(** X2.  Only the four credential variables are looked at: two environments
    that agree on them get the same verdict, whatever else they hold. *)
Theorem checkEnvForPlaceholders_frame (env env' : gmap string string) :
  (∀ c, In c credentials → env !! c = env' !! c) →
  checkEnvForPlaceholders env = checkEnvForPlaceholders env'.
Proof. apply checkEnvForPlaceholders_ext. Qed.

Lemma checkEnvForPlaceholders_frame_witness :
  checkEnvForPlaceholders {["CUBEJS_DB_PORT" := "<YOUR_DB_PORT>"]}
  = checkEnvForPlaceholders ∅.
Proof.
  apply (checkEnvForPlaceholders_frame {["CUBEJS_DB_PORT" := "<YOUR_DB_PORT>"]} ∅).
  intros c Hin. simpl in Hin.
  destruct Hin as [<-|[<-|[<-|[<-|[]]]]]; reflexivity.
Defined.

(** ** The constructor, in full *)

Lemma construct_incomplete (env : gmap string string) (machineId : string)
    (arg : option options) :
  incomplete (withDefaults env arg) →
  construct env machineId arg = (Throw ConfigError, []).
Proof.
  unfold incomplete, construct.
  intros [H|[H|H]]; rewrite H; simpl; rewrite ?orb_true_r; reflexivity.
Qed.

Lemma construct_normal (env : gmap string string) (machineId : string)
    (arg : option options) (c : CubejsServerCore) :
  fst (construct env machineId arg) = Normal c →
  let o := withDefaults env arg in
  let dev := truthy_bool (devServer o) in
  c = {| this_options := o;
         this_driverFactory := driverFactory o;
         this_apiSecret := apiSecret o;
         this_schemaPath := default_str (schemaPath o) "schema";
         this_dbType := dbType o;
         this_anonymousId := if dev then Some machineId else None;
         this_driver := Driver.fresh |} ∧
  snd (construct env machineId arg) =
    ENewFileRepository (default_str (schemaPath o) "schema") ::
    (if dev then [ERequire "analytics-node"; ENewAnalytics;
                  ERequire "node-machine-id"; ERequire "util";
                  EMachineId; EOnUncaughtException]
     else []) ∧
  truthy_ref (driverFactory o) = true ∧
  truthy_str (apiSecret o) = true ∧
  truthy_str (dbType o) = true.
Proof.
  intros Hc o dev. subst o dev. revert Hc. unfold construct.
  destruct (truthy_ref (driverFactory (withDefaults env arg))); [|discriminate].
  destruct (truthy_str (apiSecret (withDefaults env arg))); [|discriminate].
  destruct (truthy_str (dbType (withDefaults env arg))); [|discriminate].
  cbv zeta. cbn [negb orb fst snd]. intros [= <-]. auto.
Qed.

(** X4.  When the caller gives the secret, the type and the dev flag itself
    (each an own property of the options, whatever it holds), the environment
    plays no part in construction: any two environments give the same core,
    the same effects, or the same error. *)
Theorem construct_explicit_options (env env' : gmap string string)
    (machineId : string) (o : options) :
  o_apiSecret o ≠ Unset →
  o_dbType o ≠ Unset →
  o_devServer o ≠ Unset →
  construct env machineId (Some o) = construct env' machineId (Some o).
Proof.
  intros Hs Ht Hd.
  assert (Hw : withDefaults env (Some o) = withDefaults env' (Some o)).
  { unfold withDefaults.
    destruct (o_apiSecret o); [contradiction| |];
    destruct (o_dbType o); try contradiction;
    destruct (o_devServer o); try contradiction; reflexivity. }
  unfold construct. rewrite Hw. reflexivity.
Qed.

Lemma construct_explicit_options_witness :
  construct {["CUBEJS_API_SECRET" := "other"]} "machine"
    (Some (demo_options Unset))
  = construct ∅ "machine" (Some (demo_options Unset)).
Proof.
  apply (construct_explicit_options {["CUBEJS_API_SECRET" := "other"]} ∅
           "machine" (demo_options Unset)); discriminate.
Defined.

(** X5.  An own property of the caller's options that holds undefined hides
    the default: with the factory, the secret or the type passed as undefined,
    construction fails with the configuration error even when the environment
    has the secret and the type. *)
Theorem construct_undefined_hides_default (env : gmap string string)
    (machineId : string) (o : options) :
  o_driverFactory o = Undef ∨ o_apiSecret o = Undef ∨ o_dbType o = Undef →
  construct env machineId (Some o) = (Throw ConfigError, []).
Proof.
  intros H. apply construct_incomplete. unfold incomplete, withDefaults. simpl.
  destruct H as [H | [H | H]]; rewrite H; simpl; auto.
Qed.

Lemma construct_undefined_hides_default_witness :
  construct (<["CUBEJS_API_SECRET" := "secret"]> {["CUBEJS_DB_TYPE" := "postgres"]})
    "machine"
    (Some {| o_driverFactory := Unset; o_apiSecret := Undef; o_dbType := Unset;
             o_devServer := Unset; o_schemaPath := Unset |})
  = (Throw ConfigError, []).
Proof.
  apply (construct_undefined_hides_default
           (<["CUBEJS_API_SECRET" := "secret"]> {["CUBEJS_DB_TYPE" := "postgres"]})
           "machine").
  right. left. reflexivity.
Defined.

Example construct_environment_alone :
  ∃ c, fst (construct (<["CUBEJS_API_SECRET" := "secret"]>
                         {["CUBEJS_DB_TYPE" := "postgres"]}) "machine" None)
       = Normal c.
Proof. eexists. reflexivity. Qed.

(** X6.  Dev mode is what the caller's [devServer] says when the options have
    it (off when it holds undefined); otherwise it is on unless [NODE_ENV] is
    exactly production, so an unset [NODE_ENV] means dev mode. *)
Theorem dev_mode_decided (env : gmap string string) (arg : option options) :
  truthy_bool (devServer (withDefaults env arg)) =
    match match arg with Some o => o_devServer o | None => Unset end with
    | Val b => b
    | Undef => false
    | Unset => negb (bool_decide (env !! "NODE_ENV" = Some "production"))
    end.
Proof.
  assert (Hnp : not_production env
                = negb (bool_decide (env !! "NODE_ENV" = Some "production"))).
  { unfold not_production. destruct (env !! "NODE_ENV") as [v|].
    - case_bool_decide as Hd.
      + injection Hd as ->. reflexivity.
      + destruct (String.eqb_spec v "production") as [->|Hne]; [|reflexivity].
        contradiction Hd. reflexivity.
    - case_bool_decide as Hd; [discriminate Hd | reflexivity]. }
  unfold withDefaults. destruct arg as [o|]; simpl.
  - destruct (o_devServer o); simpl; try reflexivity. exact Hnp.
  - exact Hnp.
Qed.

Lemma initApp_passes (t : devtools) (env : gmap string string)
    (c : CubejsServerCore) (now : nat) :
  checkEnvForPlaceholders env = Normal tt →
  initApp t env c now =
    (Fulfilled tt,
     [ ENewCompilerApi; ENewOrchestratorApi;
       ENewApiGateway (this_apiSecret c); EGatewayInitApp ] ++
     (if truthy_bool (devServer (this_options c))
      then initDevEnv t env c now else [])).
Proof. intros H. unfold initApp. rewrite H. reflexivity. Qed.

(** X7.  A core built with dev mode off has no dev surface: the constructor
    only builds the file repository (no analytics client, no machine id, no
    uncaught-exception listener), the core has no anonymous id, and [initApp]
    registers no playground route and sends no telemetry, whatever the
    environment at that time. *)
Theorem production_has_no_dev_surface (t : devtools)
    (env0 env : gmap string string) (machineId : string)
    (arg : option options) (c : CubejsServerCore) (now : nat) :
  fst (construct env0 machineId arg) = Normal c →
  truthy_bool (devServer (this_options c)) = false →
  snd (construct env0 machineId arg) = [ENewFileRepository (this_schemaPath c)] ∧
  this_anonymousId c = None ∧
  filter (fun ev => is_route ev = true) (snd (initApp t env c now)) = [] ∧
  filter (fun ev => is_track ev = true) (snd (initApp t env c now)) = [].
Proof.
  intros Hc Hdev.
  destruct (construct_normal env0 machineId arg c Hc) as (Heq & Heff & _).
  assert (Hd : truthy_bool (devServer (withDefaults env0 arg)) = false).
  { rewrite Heq in Hdev. exact Hdev. }
  split_and!.
  - rewrite Heff, Hd, Heq. reflexivity.
  - rewrite Heq. cbn [this_anonymousId]. rewrite Hd. reflexivity.
  - unfold initApp. destruct (checkEnvForPlaceholders env); [|reflexivity].
    rewrite Hdev. reflexivity.
  - unfold initApp. destruct (checkEnvForPlaceholders env); [|reflexivity].
    rewrite Hdev. reflexivity.
Qed.

Lemma production_has_no_dev_surface_witness :
  filter (fun ev => is_route ev = true)
    (snd (initApp demo_tools ∅
            {| this_options := withDefaults {["NODE_ENV" := "production"]}
                                 (Some {| o_driverFactory := Unset;
                                          o_apiSecret := Val "secret";
                                          o_dbType := Val "postgres";
                                          o_devServer := Unset;
                                          o_schemaPath := Unset |});
               this_driverFactory := Some DefaultFactory;
               this_apiSecret := Some "secret";
               this_schemaPath := "schema";
               this_dbType := Some "postgres";
               this_anonymousId := None;
               this_driver := Driver.fresh |} 0)) = [].
Proof.
  refine (proj1 (proj2 (proj2 (production_has_no_dev_surface demo_tools
           {["NODE_ENV" := "production"]} ∅ "machine"
           (Some {| o_driverFactory := Unset; o_apiSecret := Val "secret";
                    o_dbType := Val "postgres"; o_devServer := Unset;
                    o_schemaPath := Unset |}) _ 0 _ _)))).
  - reflexivity.
  - reflexivity.
Defined.

(** X8.  A core built with dev mode on takes the machine id as its anonymous
    id and installs the uncaught-exception listener at construction; when the
    environment has no placeholder, [initApp] composes the compiler, the
    orchestrator and the gateway first, then registers exactly the four
    playground routes and sends exactly one event, Dev Server Start, tagged
    with that id. *)
Theorem dev_surface (t : devtools) (env0 env : gmap string string)
    (machineId : string) (arg : option options) (c : CubejsServerCore)
    (now : nat) :
  fst (construct env0 machineId arg) = Normal c →
  truthy_bool (devServer (this_options c)) = true →
  checkEnvForPlaceholders env = Normal tt →
  this_anonymousId c = Some machineId ∧
  In EOnUncaughtException (snd (construct env0 machineId arg)) ∧
  (∃ rest, snd (initApp t env c now) =
           ENewCompilerApi :: ENewOrchestratorApi ::
           ENewApiGateway (this_apiSecret c) :: EGatewayInitApp :: rest) ∧
  filter (fun ev => is_route ev = true) (snd (initApp t env c now)) =
    [ ERoute "GET" "/playground/context";
      ERoute "GET" "/playground/db-schema";
      ERoute "GET" "/playground/files";
      ERoute "POST" "/playground/generate-schema" ] ∧
  filter (fun ev => is_track ev = true) (snd (initApp t env c now)) =
    [ ETrack "Dev Server Start" (Some machineId) None ].
Proof.
  intros Hc Hdev Henv.
  destruct (construct_normal env0 machineId arg c Hc) as (Heq & Heff & _).
  assert (Hd : truthy_bool (devServer (withDefaults env0 arg)) = true).
  { rewrite Heq in Hdev. exact Hdev. }
  assert (Hid : this_anonymousId c = Some machineId).
  { rewrite Heq. cbn [this_anonymousId]. rewrite Hd. reflexivity. }
  rewrite Heff, Hd, (initApp_passes t env c now Henv), Hdev.
  split; [exact Hid|]. split; [simpl; tauto|].
  split; [simpl; eauto|]. unfold initDevEnv, event_call. rewrite Hid.
  split; reflexivity.
Qed.

Lemma dev_surface_witness :
  filter (fun ev => is_track ev = true)
    (snd (initApp demo_tools ∅ (demo_core Unset) 0)) =
    [ ETrack "Dev Server Start" (Some "machine") None ].
Proof.
  refine (proj2 (proj2 (proj2 (proj2 (dev_surface demo_tools ∅ ∅ "machine"
           (Some (demo_options Unset)) (demo_core Unset) 0 _ _ _))))).
  - reflexivity.
  - reflexivity.
  - reflexivity.
Defined.

(** X9.  The schema directory of a constructed core is never empty: it is the
    caller's [schemaPath] when that is a non-empty string and schema
    otherwise (not given, undefined, or empty), and the file repository is
    built on it. *)
Theorem schemaPath_default (env : gmap string string) (machineId : string)
    (arg : option options) (c : CubejsServerCore) :
  fst (construct env machineId arg) = Normal c →
  this_schemaPath c ≠ "" ∧
  In (ENewFileRepository (this_schemaPath c)) (snd (construct env machineId arg)) ∧
  match match arg with Some o => o_schemaPath o | None => Unset end with
  | Val p => this_schemaPath c = if String.eqb p "" then "schema" else p
  | _ => this_schemaPath c = "schema"
  end.
Proof.
  intros Hc.
  destruct (construct_normal env machineId arg c Hc) as (Heq & Heff & _).
  rewrite Heff. rewrite Heq. cbn [this_schemaPath].
  assert (Hp : schemaPath (withDefaults env arg)
               = spread None match arg with Some o => o_schemaPath o | None => Unset end).
  { unfold withDefaults. destruct arg; reflexivity. }
  rewrite Hp.
  destruct (match arg with Some o => o_schemaPath o | None => Unset end) as [| |p];
    simpl; unfold default_str, or_str; simpl.
  - split; [discriminate|]. split; [left|]; reflexivity.
  - split; [discriminate|]. split; [left|]; reflexivity.
  - destruct (String.eqb_spec p "") as [->|Hne]; simpl.
    + split; [discriminate|]. split; [left|]; reflexivity.
    + split; [exact Hne|]. split; [left|]; reflexivity.
Qed.

Lemma schemaPath_default_witness :
  this_schemaPath (demo_core (Val "")) = "schema".
Proof.
  refine (proj2 (proj2 (schemaPath_default ∅ "machine"
           (Some (demo_options (Val ""))) (demo_core (Val "")) _))).
  reflexivity.
Defined.

(** ** Default driver construction, in full *)

Lemma driverDependencies_own (dbType : option string) (m : string) :
  driverDependencies dbType = Some (Own m) →
  ∃ tag, In tag known_tags ∧ DriverDependencies !! tag = Some m.
Proof.
  unfold driverDependencies.
  assert (Hj : get DriverDependencies "jdbc" = jdbc) by reflexivity.
  rewrite Hj. unfold jdbc.
  destruct (get DriverDependencies (to_key dbType)) as [[m'|x]|] eqn:Hg; simpl.
  - assert (Htag : ∃ tag, In tag known_tags ∧ DriverDependencies !! tag = Some m').
    { unfold get in Hg.
      destruct (DriverDependencies !! to_key dbType) as [m0|] eqn:Hk.
      - injection Hg as ->. exists (to_key dbType). split; [|exact Hk].
        destruct (in_dec String.string_dec (to_key dbType) known_tags) as [Hin|Hn];
          [exact Hin|].
        rewrite (DriverDependencies_unknown _ Hn) in Hk. discriminate.
      - destruct (bool_decide _); discriminate. }
    destruct (String.eqb m' ""); simpl.
    + intros [= <-]. exists "jdbc". split; [simpl; tauto | reflexivity].
    + intros [= <-]. exact Htag.
  - discriminate.
  - intros [= <-]. exists "jdbc". split; [simpl; tauto | reflexivity].
Qed.

(** X10.  Whatever type it is given and whatever the environment holds,
    [createDriver] loads at most one module, and only a package of the driver
    table; when it does, the placeholder check has passed and the result is
    that package's driver. *)
Theorem createDriver_loads_table_package (env : gmap string string)
    (load : string -> completion Driver.instance) (dbType : option string) :
  (snd (createDriver env load dbType) = [] ∨
   ∃ tag m, In tag known_tags ∧ DriverDependencies !! tag = Some m ∧
            snd (createDriver env load dbType) = [ERequire m] ∧
            fst (createDriver env load dbType) = load m ∧
            checkEnvForPlaceholders env = Normal tt).
Proof.
  unfold createDriver.
  destruct (checkEnvForPlaceholders env) as [[]|e]; [|auto].
  destruct (driverDependencies _) as [[m|x]|] eqn:Hd; simpl; auto.
  right. destruct (driverDependencies_own _ m Hd) as (tag & Hin & Hm).
  exists tag, m. auto.
Qed.

Lemma createDriver_ignores_variable (env : gmap string string)
    (load : string -> completion Driver.instance) (dbType : option string)
    (ty : string) :
  truthy_str dbType = true →
  createDriver (<["CUBEJS_DB_TYPE" := ty]> env) load dbType
  = createDriver env load dbType.
Proof.
  intros Ht. unfold createDriver, or_str. rewrite Ht.
  rewrite (checkEnvForPlaceholders_ext (<["CUBEJS_DB_TYPE" := ty]> env) env);
    [reflexivity|].
  intros c Hin. apply lookup_insert_ne. intros <-. simpl in Hin.
  destruct Hin as [H|[H|[H|[H|[]]]]]; discriminate H.
Qed.

(** X11.  The type [createDriver] is called with takes precedence over
    [CUBEJS_DB_TYPE]: when it is a non-empty string the variable is not
    consulted, and when it is undefined or empty the call is the same as one
    with the variable's value. *)
Theorem createDriver_type_precedence (env : gmap string string)
    (load : string -> completion Driver.instance) (dbType : option string) :
  (truthy_str dbType = true →
   ∀ ty, createDriver (<["CUBEJS_DB_TYPE" := ty]> env) load dbType
         = createDriver env load dbType) ∧
  (truthy_str dbType = false →
   createDriver env load dbType
   = createDriver env load (env !! "CUBEJS_DB_TYPE")).
Proof.
  split.
  - intros Ht ty. apply createDriver_ignores_variable, Ht.
  - intros Hf. unfold createDriver, or_str. rewrite Hf.
    destruct (truthy_str (env !! "CUBEJS_DB_TYPE")); reflexivity.
Qed.

Lemma createDriver_type_precedence_witness :
  createDriver {["CUBEJS_DB_TYPE" := "mysql"]} (fun _ => Normal 0) (Some "postgres")
  = (Normal 0, [ERequire "@cubejs-backend/postgres-driver"]).
Proof.
  refine (eq_trans
            (proj1 (createDriver_type_precedence ∅ (fun _ => Normal 0)
                      (Some "postgres")) _ "mysql") _).
  - reflexivity.
  - reflexivity.
Defined.

(** X12.  The default factory of a constructed core selects the driver by the
    type the core was built with: that type is a non-empty string, so a
    [CUBEJS_DB_TYPE] set or changed after construction does not change what
    the factory loads. *)
Theorem default_factory_fixed_type (env0 env : gmap string string)
    (machineId : string) (arg : option options) (c : CubejsServerCore)
    (load : string -> completion Driver.instance) (ty : string) :
  fst (construct env0 machineId arg) = Normal c →
  dbType (this_options c) = this_dbType c ∧
  truthy_str (this_dbType c) = true ∧
  default_factory (<["CUBEJS_DB_TYPE" := ty]> env) load (this_options c)
  = default_factory env load (this_options c).
Proof.
  intros Hc.
  destruct (construct_normal env0 machineId arg c Hc) as (Heq & _ & _ & _ & Ht).
  assert (Hd : dbType (this_options c) = this_dbType c) by (rewrite Heq; reflexivity).
  assert (Htr : truthy_str (this_dbType c) = true) by (rewrite Heq; exact Ht).
  split; [exact Hd|]. split; [exact Htr|].
  unfold default_factory. rewrite Hd.
  apply createDriver_ignores_variable, Htr.
Qed.

Lemma default_factory_fixed_type_witness :
  default_factory {["CUBEJS_DB_TYPE" := "mysql"]} (fun _ => Normal 0)
    (this_options (demo_core Unset))
  = default_factory ∅ (fun _ => Normal 0) (this_options (demo_core Unset)).
Proof.
  refine (proj2 (proj2 (default_factory_fixed_type ∅ ∅ "machine"
           (Some (demo_options Unset)) (demo_core Unset)
           (fun _ => Normal 0) "mysql" _))).
  reflexivity.
Defined.

(** ** Telemetry and logging *)

(** X13.  One call of [this.event] hands the sink the event exactly once and
    first; it flushes only when that delivery succeeded (a failed or
    unanswered delivery is never followed by a flush); and its promise stays
    pending exactly when the sink leaves the delivery unanswered, or answers
    it and leaves the flush unanswered. *)
Theorem event_delivery (k : sink) (name : string) (aid err : option string) :
  snd (event k name aid err) =
    ETrack name aid err ::
    match track k name with Resolves => [EFlush] | _ => [] end ∧
  (fst (event k name aid err) = Pending ↔
   track k name = Hangs ∨ (track k name = Resolves ∧ flush k name = Hangs)).
Proof.
  unfold event, event_settle, event_body, event_call.
  destruct (track k name) as [|e|]; [destruct (flush k name) as [|e|]| |];
    simpl; (split; [reflexivity|]); split;
    try discriminate; try (intros [H|[H1 H2]]; discriminate); auto.
Qed.

Lemma reported_message_dec (msg : string) :
  (String.eqb msg "Load Request" ||
   String.eqb msg "Load Request Success" ||
   String.eqb msg "Orchestrator error" ||
   String.eqb msg "Internal Server Error" ||
   String.eqb msg "User Error") = true ↔ In msg reported_messages.
Proof.
  unfold reported_messages. simpl.
  rewrite !orb_true_iff, !String.eqb_eq. intuition congruence.
Qed.

(** X14.  The dev logger prints the same line as the default logger and adds
    telemetry for five messages only: for one of those it hands the sink one
    event with the message as its name and [params.error] as its error, and
    throws, printing nothing, when it is called without [params]; for any
    other message it behaves as the default logger, with or without
    [params]. *)
Theorem dev_logger_reports (aid : option string) (msg : string)
    (params : option log_params) :
  (¬ In msg reported_messages →
   dev_logger aid msg params = default_logger msg params) ∧
  (In msg reported_messages →
   match params with
   | Some p =>
       dev_logger aid msg params =
         Normal [ETrack msg aid (p_error p); log_line msg params]
   | None => dev_logger aid msg params = Throw (TypeError "error")
   end).
Proof.
  unfold dev_logger, default_logger. split; intros H.
  - destruct (_ || _) eqn:Hm; [|reflexivity].
    apply reported_message_dec in Hm. contradiction.
  - apply reported_message_dec in H. rewrite H. destruct params; reflexivity.
Qed.

Lemma dev_logger_reports_witness :
  dev_logger (Some "machine") "User Error" None = Throw (TypeError "error").
Proof.
  refine (proj2 (dev_logger_reports (Some "machine") "User Error" None) _).
  simpl. tauto.
Defined.

(** ** The driver cache, in full *)

Module DriverMore.
Import Driver.

#[local] Hint Rewrite DriverFacts.factoryCalls_record DriverFacts.testCalls_record
  DriverFacts.factoryCalls_store DriverFacts.testCalls_store
  DriverFacts.stored_record DriverFacts.stored_store : calls.

(** The two ways a call that finds the cache empty can end. *)
Lemma getDriver_cases (w : world) (s : state) :
  driver s = None →
  (∃ d, driverFactory w (factoryCalls s) = Normal (Some d) ∧
        testConnection w d (testCalls s) = Returns Resolves ∧
        getDriver w s =
          (store d (record (ETest d (testCalls s))
                      (record (EFactory (factoryCalls s)) s)),
           Fulfilled (Some d))) ∨
  (driver (fst (getDriver w s)) = None ∧
   stored (fst (getDriver w s)) = stored s ∧
   (∀ r, snd (getDriver w s) ≠ Fulfilled r)).
Proof.
  intros H0. unfold getDriver, getDriver_call. rewrite H0. simpl.
  rewrite DriverFacts.testCalls_record. simpl.
  destruct (driverFactory w (factoryCalls s)) as [[d|]|e] eqn:Hf; simpl.
  - destruct (testConnection w d (testCalls s)) as [|e|[|e|]] eqn:Ht; simpl.
    + right. autorewrite with calls. simpl. rewrite app_nil_r. split_and!; [done..|discriminate].
    + right. autorewrite with calls. simpl. rewrite !app_nil_r. split_and!; [done..|discriminate].
    + left. exists d. auto.
    + right. autorewrite with calls. simpl. rewrite !app_nil_r. split_and!; [done..|discriminate].
    + right. autorewrite with calls. simpl. rewrite !app_nil_r. split_and!; [done..|discriminate].
  - right. autorewrite with calls. simpl. rewrite app_nil_r. split_and!; [done..|discriminate].
  - right. autorewrite with calls. simpl. rewrite app_nil_r. split_and!; [done..|discriminate].
Qed.

(** X15.  A call that finds the cache empty fills it exactly when it is
    fulfilled: a fulfilled call hands back the object the factory made, after
    its connection test resolved, and that object is in the cache; a call
    that is rejected or left pending, for whatever reason (the factory throws
    or returns nothing, the object has no connection test, the test throws,
    rejects or never answers), leaves the cache empty and assigns nothing. *)
Theorem getDriver_caches_iff_fulfilled (w : world) (s : state) :
  driver s = None →
  ((∃ r, snd (getDriver w s) = Fulfilled r) ↔
   ∃ d, driver (fst (getDriver w s)) = Some d) ∧
  (∀ r, snd (getDriver w s) = Fulfilled r →
        ∃ d, r = Some d ∧ driver (fst (getDriver w s)) = Some d ∧
             driverFactory w (factoryCalls s) = Normal (Some d) ∧
             testConnection w d (testCalls s) = Returns Resolves) ∧
  ((∀ r, snd (getDriver w s) ≠ Fulfilled r) →
   driver (fst (getDriver w s)) = None ∧
   stored (fst (getDriver w s)) = stored s).
Proof.
  intros H0. destruct (getDriver_cases w s H0) as [(d & Hf & Ht & Hg)|(Hd & Hs & Hn)].
  - rewrite Hg. simpl. split_and!.
    + split; eauto.
    + intros r [= <-]. eauto.
    + intros Hn. destruct (Hn (Some d) eq_refl).
  - split_and!.
    + split; [intros (r & Hr); destruct (Hn r Hr) | intros (d & Hd'); congruence].
    + intros r Hr. destruct (Hn r Hr).
    + auto.
Qed.

Lemma getDriver_caches_iff_fulfilled_witness :
  driver (fst (getDriver flaky_world fresh)) = None.
Proof.
  refine (proj1 (proj2 (proj2
            (getDriver_caches_iff_fulfilled flaky_world fresh eq_refl)) _)).
  intros r. discriminate.
Defined.

(** X16.  A factory that returns nothing, or an object without a connection
    test, makes the call fail with a type error; no connection test is
    counted and the cache stays empty. *)
Theorem getDriver_without_testConnection (w : world) (s : state) :
  driver s = None →
  (driverFactory w (factoryCalls s) = Normal None ∨
   ∃ d, driverFactory w (factoryCalls s) = Normal (Some d) ∧
        testConnection w d (testCalls s) = NoMethod) →
  snd (getDriver w s) = Rejected (TypeError "testConnection") ∧
  driver (fst (getDriver w s)) = None ∧
  factoryCalls (fst (getDriver w s)) = S (factoryCalls s) ∧
  testCalls (fst (getDriver w s)) = testCalls s.
Proof.
  intros H0 H. unfold getDriver, getDriver_call. rewrite H0. simpl.
  rewrite DriverFacts.testCalls_record. simpl.
  destruct H as [Hf|(d & Hf & Ht)]; rewrite Hf; [|rewrite Ht]; simpl;
    autorewrite with calls; simpl; auto.
Qed.

Lemma getDriver_without_testConnection_witness :
  snd (getDriver {| driverFactory := fun _ => Normal None;
                    testConnection := fun _ _ => NoMethod |} fresh)
  = Rejected (TypeError "testConnection").
Proof.
  refine (proj1 (getDriver_without_testConnection
                   {| driverFactory := fun _ => Normal None;
                      testConnection := fun _ _ => NoMethod |} fresh eq_refl _)).
  left. reflexivity.
Defined.

Lemma getDriver_call_cached (w : world) (s : state) (d : instance) :
  driver s = Some d → getDriver_call w s = (s, Done (Fulfilled (Some d))).
Proof. intros H. unfold getDriver_call. rewrite H. reflexivity. Qed.

Lemma getDriver_resume_idle (s : state) (t : task) :
  will_store t = false →
  fst (getDriver_resume s t) = s ∧ will_store (snd (getDriver_resume s t)) = false.
Proof. destruct t as [d [|e|]|r]; simpl; auto; discriminate. Qed.

Lemma elem_of_insert_inv (l : list task) (i : nat) (t x : task) :
  x ∈ <[i := t]> l → x = t ∨ x ∈ l.
Proof.
  intros Hx. apply list_elem_of_lookup in Hx as [j Hj].
  apply list_lookup_insert_Some in Hj as [(_ & <- & _)|(_ & Hj)]; [auto|].
  right. apply list_elem_of_lookup. eauto.
Qed.

Lemma step_idle (w : world) (sys : system) (a : action) (d : instance) :
  driver (core sys) = Some d →
  (∀ t, t ∈ tasks sys → will_store t = false) →
  core (step w sys a) = core sys ∧
  (∀ t, t ∈ tasks (step w sys a) → will_store t = false).
Proof.
  intros Hd Hidle. destruct a as [|i]; simpl.
  - rewrite (getDriver_call_cached w (core sys) d Hd). simpl.
    split; [reflexivity|]. intros t Ht.
    apply elem_of_app in Ht as [Ht|Ht]; [auto|].
    apply list_elem_of_singleton in Ht. subst t. reflexivity.
  - destruct (tasks sys !! i) as [t|] eqn:Hi; [|auto].
    assert (Ht : will_store t = false).
    { apply Hidle, list_elem_of_lookup. eauto. }
    destruct (getDriver_resume_idle (core sys) t Ht) as [Hc Hw].
    destruct (getDriver_resume (core sys) t) as [s' t']. simpl in *.
    split; [exact Hc|]. intros x Hx.
    apply elem_of_insert_inv in Hx as [->|Hx]; auto.
Qed.

(** X17.  Once a driver is in the cache and no call in flight is about to
    assign one, the cache is settled for good: whatever calls are made and
    whatever settles afterwards, nothing about the cache changes: the same
    driver stays, the factory is never invoked again, no connection test is
    made again. *)
Theorem cache_settled_for_good (w : world) (acts : list action)
    (sys : system) (d : instance) :
  driver (core sys) = Some d →
  (∀ t, t ∈ tasks sys → will_store t = false) →
  core (run w acts sys) = core sys.
Proof.
  revert sys. induction acts as [|a acts IH]; intros sys Hd Hidle; [reflexivity|].
  simpl. destruct (step_idle w sys a d Hd Hidle) as [Hc Hi].
  rewrite IH; [exact Hc | rewrite Hc; exact Hd | exact Hi].
Qed.

Lemma cache_settled_for_good_witness :
  core (run demo_world [Call; Settle 0; Call; Call; Settle 2] (boot fresh))
  = core (run demo_world [Call; Settle 0] (boot fresh)).
Proof.
  refine (cache_settled_for_good demo_world [Call; Call; Settle 2]
            (run demo_world [Call; Settle 0] (boot fresh)) 0 _ _).
  - reflexivity.
  - intros t Ht. simpl in Ht. apply list_elem_of_singleton in Ht.
    subst t. reflexivity.
Defined.

Lemma step_grows (w : world) (sys : system) (a : action) :
  (∃ l, stored (core (step w sys a)) = stored (core sys) ++ l) ∧
  (driver (core sys) ≠ None → driver (core (step w sys a)) ≠ None).
Proof.
  destruct a as [|i]; simpl.
  - pose proof (DriverFacts.driver_getDriver_call w (core sys)) as Hd.
    pose proof (DriverFacts.stored_getDriver_call w (core sys)) as Hs.
    destruct (getDriver_call w (core sys)) as [s' t]. simpl in *.
    split; [exists []; rewrite app_nil_r; exact Hs | congruence].
  - destruct (tasks sys !! i) as [t|]; [|split; [exists []; rewrite app_nil_r|]; auto].
    destruct t as [d [|e|]|r]; simpl;
      try (split; [exists []; rewrite app_nil_r|]; auto; fail).
    split; [exists [d]; apply DriverFacts.stored_store | discriminate].
Qed.

(** X18.  The cache is never emptied and what was assigned is never
    forgotten: along any interleaving the list of assignments only grows at
    its end, and a cache that holds a driver still holds one afterwards. *)
Theorem cache_never_emptied (w : world) (acts : list action) (sys : system) :
  (∃ l, stored (core (run w acts sys)) = stored (core sys) ++ l) ∧
  (driver (core sys) ≠ None → driver (core (run w acts sys)) ≠ None).
Proof.
  revert sys. induction acts as [|a acts IH]; intros sys; simpl.
  - split; [exists []; rewrite app_nil_r; reflexivity | auto].
  - destruct (step_grows w sys a) as [(l1 & H1) Hd1].
    destruct (IH (step w sys a)) as [(l2 & H2) Hd2].
    split; [|auto]. exists (l1 ++ l2). rewrite H2, H1, app_assoc. reflexivity.
Qed.

Lemma cache_never_emptied_witness :
  driver (core (run demo_world [Call; Call; Settle 2]
                  (run demo_world [Call; Settle 0] (boot fresh)))) ≠ None.
Proof.
  refine (proj2 (cache_never_emptied demo_world [Call; Call; Settle 2]
                   (run demo_world [Call; Settle 0] (boot fresh))) _).
  discriminate.
Defined.

Lemma getDriver_call_made (w : world) (s : state) (d : instance) (o : settle) :
  snd (getDriver_call w s) = Awaiting d o →
  ∃ k, EFactory k ∈ trace (fst (getDriver_call w s)) ∧
       driverFactory w k = Normal (Some d).
Proof.
  unfold getDriver_call.
  destruct (negb (truthy_ref (driver s))); [|discriminate].
  destruct (driverFactory w (factoryCalls s)) as [[d'|]|e] eqn:Hf; simpl;
    try discriminate.
  destruct (testConnection w d' _) as [|e|o']; simpl; try discriminate.
  intros [= -> ->]. exists (factoryCalls s). split; [|exact Hf]. set_solver.
Qed.

Lemma step_made (w : world) (sys : system) (a : action) :
  (∀ d, d ∈ stored (core sys) →
        ∃ k, EFactory k ∈ trace (core sys) ∧ driverFactory w k = Normal (Some d)) →
  (∀ i d o, tasks sys !! i = Some (Awaiting d o) →
        ∃ k, EFactory k ∈ trace (core sys) ∧ driverFactory w k = Normal (Some d)) →
  (∀ d, d ∈ stored (core (step w sys a)) →
        ∃ k, EFactory k ∈ trace (core (step w sys a)) ∧
             driverFactory w k = Normal (Some d)) ∧
  (∀ i d o, tasks (step w sys a) !! i = Some (Awaiting d o) →
        ∃ k, EFactory k ∈ trace (core (step w sys a)) ∧
             driverFactory w k = Normal (Some d)).
Proof.
  intros Hs Ht. destruct a as [|i]; simpl.
  - pose proof (DriverFacts.stored_getDriver_call w (core sys)) as Hst.
    pose proof (DriverFacts.trace_getDriver_call w (core sys)) as Hm.
    pose proof (getDriver_call_made w (core sys)) as Ha.
    destruct (getDriver_call w (core sys)) as [s' t]. simpl in *. split.
    + intros d Hd. rewrite Hst in Hd. destruct (Hs d Hd) as (k & Hk & Hf). eauto.
    + intros i d o H. apply lookup_app_Some in H as [H|[_ H]].
      * destruct (Ht i d o H) as (k & Hk & Hf). eauto.
      * destruct (i - length (tasks sys)) as [|n]; [|destruct n; discriminate H].
        simpl in H. injection H as ->. apply (Ha d o eq_refl).
  - destruct (tasks sys !! i) as [t|] eqn:Hi; [|auto].
    pose proof (DriverFacts.trace_getDriver_resume (core sys) t) as Hm.
    assert (Hst : ∀ d, d ∈ stored (fst (getDriver_resume (core sys) t)) →
              ∃ k, EFactory k ∈ trace (core sys) ∧ driverFactory w k = Normal (Some d)).
    { destruct t as [d' [|e|]|r]; simpl; auto.
      intros d Hd. rewrite DriverFacts.stored_store in Hd.
      apply elem_of_app in Hd as [Hd|Hd]; [auto|].
      apply list_elem_of_singleton in Hd. subst d. eapply Ht. exact Hi. }
    assert (Hnew : ∀ d o, snd (getDriver_resume (core sys) t) = Awaiting d o →
                          t = Awaiting d o).
    { destruct t as [d' [|e|]|r]; simpl; intros d o H; try discriminate H; exact H. }
    destruct (getDriver_resume (core sys) t) as [s' t']. simpl in *. split.
    + intros d Hd. destruct (Hst d Hd) as (k & Hk & Hf). eauto.
    + intros j d o H.
      apply list_lookup_insert_Some in H as [(_ & -> & _)|(_ & H)].
      * rewrite (Hnew d o eq_refl) in Hi.
        destruct (Ht i d o Hi) as (k & Hk & Hf). eauto.
      * destruct (Ht j d o H) as (k & Hk & Hf). eauto.
Qed.

(** X19.  Starting from a core that never cached a driver, every object ever
    assigned to the cache, along any interleaving, is one the factory
    returned at one of its recorded invocations: the cache never holds
    anything the configured factory did not make. *)
Theorem stored_made_by_factory (w : world) (acts : list action) (s0 : state) :
  stored s0 = [] →
  ∀ d, d ∈ stored (core (run w acts (boot s0))) →
       ∃ k, EFactory k ∈ trace (core (run w acts (boot s0))) ∧
            driverFactory w k = Normal (Some d).
Proof.
  intros H0.
  assert (Hgen : ∀ acts sys,
    (∀ d, d ∈ stored (core sys) →
          ∃ k, EFactory k ∈ trace (core sys) ∧ driverFactory w k = Normal (Some d)) →
    (∀ i d o, tasks sys !! i = Some (Awaiting d o) →
          ∃ k, EFactory k ∈ trace (core sys) ∧ driverFactory w k = Normal (Some d)) →
    ∀ d, d ∈ stored (core (run w acts sys)) →
         ∃ k, EFactory k ∈ trace (core (run w acts sys)) ∧
              driverFactory w k = Normal (Some d)).
  { clear. induction acts as [|a acts IH]; intros sys Hs Ht; simpl; [exact Hs|].
    destruct (step_made w sys a Hs Ht) as [Hs' Ht']. apply IH; assumption. }
  apply Hgen; simpl.
  - intros d Hd. rewrite H0 in Hd. apply not_elem_of_nil in Hd. destruct Hd.
  - intros i d o Hi. rewrite lookup_nil in Hi. discriminate.
Qed.

Lemma stored_made_by_factory_witness :
  ∃ k, EFactory k ∈ trace (core (run demo_world [Call; Call; Settle 1] (boot fresh))) ∧
       driverFactory demo_world k = Normal (Some 1).
Proof.
  refine (stored_made_by_factory demo_world [Call; Call; Settle 1] fresh eq_refl 1 _).
  simpl. apply list_elem_of_here.
Defined.

Lemma step_counts (w : world) (sys : system) (a : action) :
  (factoryCalls (core sys) <= factoryCalls (core (step w sys a)))%nat ∧
  (factoryCalls (core (step w sys a))
   <= factoryCalls (core sys) + (if is_call a then 1 else 0))%nat ∧
  (testCalls (core sys) <= testCalls (core (step w sys a)))%nat ∧
  (testCalls (core (step w sys a)) + factoryCalls (core sys)
   <= testCalls (core sys) + factoryCalls (core (step w sys a)))%nat.
Proof.
  destruct a as [|i]; simpl.
  - unfold getDriver_call. destruct (negb (truthy_ref (driver (core sys)))).
    + destruct (driverFactory w _) as [[d|]|e]; simpl;
        [destruct (testConnection w d _) as [|e|o]; simpl| |];
        autorewrite with calls; simpl; lia.
    + simpl. lia.
  - destruct (tasks sys !! i) as [t|]; [|lia].
    destruct (DriverFacts.calls_getDriver_resume (core sys) t) as [Hf Ht].
    destruct (getDriver_resume (core sys) t) as [s' t']. simpl in *. lia.
Qed.

(** X20.  Along any interleaving the factory is invoked at most once for
    each call of [getDriver] (and not at all when something settles), and a
    connection test is only ever made right after a factory invocation: there
    are never more new tests than new factory invocations. *)
Theorem factory_calls_bounded (w : world) (acts : list action) (sys : system) :
  (factoryCalls (core sys) <= factoryCalls (core (run w acts sys)))%nat ∧
  (factoryCalls (core (run w acts sys))
   <= factoryCalls (core sys) + length (filter (fun a => is_call a = true) acts))%nat ∧
  (testCalls (core (run w acts sys)) + factoryCalls (core sys)
   <= testCalls (core sys) + factoryCalls (core (run w acts sys)))%nat.
Proof.
  revert sys. induction acts as [|a acts IH]; intros sys; simpl; [lia|].
  destruct (step_counts w sys a) as (H1 & H2 & H3 & H4).
  destruct (IH (step w sys a)) as (I1 & I2 & I3).
  destruct (is_call a) eqn:Ha.
  - rewrite filter_cons_True by exact Ha. simpl. lia.
  - rewrite filter_cons_False by congruence. lia.
Qed.






End DriverMore.

(** ** The endpoints, in full *)

Lemma load_schema_first (t : devtools) (w : Driver.world) (s s1 : Driver.state)
    (ts : nat) :
  Driver.driver s = None →
  load_schema t w s = (s1, Fulfilled ts) →
  ∃ d, Driver.driver s1 = Some d ∧
       Driver.factoryCalls s1 = S (Driver.factoryCalls s) ∧
       tablesSchema t d = Fulfilled ts.
Proof.
  intros H0. unfold load_schema.
  destruct (DriverMore.getDriver_cases w s H0)
    as [(d & Hf & Ht & Hg)|(Hd & Hs & Hn)].
  - rewrite Hg. intros [= <- Hts]. exists d. split_and!; [reflexivity| |exact Hts].
    rewrite DriverFacts.factoryCalls_store, !DriverFacts.factoryCalls_record.
    reflexivity.
  - destruct (Driver.getDriver w s) as [s' [[d|]|e|]]; simpl in *;
      try (intros [= _ H]; discriminate H).
    destruct (Hn (Some d) eq_refl).
Qed.

Lemma load_schema_cached (t : devtools) (w : Driver.world) (s : Driver.state)
    (d : Driver.instance) :
  Driver.driver s = Some d → load_schema t w s = (s, tablesSchema t d).
Proof.
  intros H. unfold load_schema. rewrite (DriverFacts.getDriver_cached w s d H).
  reflexivity.
Qed.

(** X22.  The schema endpoint fills the driver cache once: when a first
    request, made with the cache empty, is answered, it has invoked the
    factory once and cached the driver, and a second request answers with
    the schema of that cached driver without touching the cache, the factory
    or the connection test. *)
Theorem db_schema_reuses_driver (t : devtools) (w : Driver.world) (k : sink)
    (c : CubejsServerCore) (fs : gmap string string) (body : json) :
  Driver.driver (this_driver c) = None →
  response (db_schema_handler t w k c fs) = Fulfilled body →
  let r1 := db_schema_handler t w k c fs in
  let r2 := db_schema_handler t w k (with_driver c (driver_after r1)) fs in
  Driver.factoryCalls (driver_after r1) = S (Driver.factoryCalls (this_driver c)) ∧
  driver_after r2 = driver_after r1 ∧
  ∃ d, Driver.driver (driver_after r1) = Some d ∧
       response r2 =
         match tablesSchema t d with
         | Fulfilled ts => Fulfilled [("tablesSchema", JOpaque ts)]
         | Rejected e => Rejected e
         | Pending => Pending
         end.
Proof.
  intros H0 Hr r1 r2. subst r1 r2. revert Hr. unfold db_schema_handler.
  destruct (load_schema t w (this_driver c)) as [s1 p] eqn:Hl.
  destruct p as [ts|e|]; cbn [response driver_after]; try discriminate.
  intros [= <-].
  destruct (load_schema_first t w _ s1 ts H0 Hl) as (d & Hd & Hfc & Hts).
  cbn [with_driver this_driver].
  rewrite (load_schema_cached t w s1 d Hd). cbn [response driver_after].
  split_and!; eauto.
Qed.

Lemma db_schema_reuses_driver_witness :
  driver_after
    (db_schema_handler demo_tools demo_world quiet_sink
       (with_driver (demo_core Unset)
          (driver_after (db_schema_handler demo_tools demo_world quiet_sink
                           (demo_core Unset) ∅))) ∅)
  = driver_after (db_schema_handler demo_tools demo_world quiet_sink
                    (demo_core Unset) ∅).
Proof.
  refine (proj1 (proj2 (db_schema_reuses_driver demo_tools demo_world
           quiet_sink (demo_core Unset) ∅ [("tablesSchema", JOpaque 0)] _ _))).
  - reflexivity.
  - reflexivity.
Defined.

(** X23.  Scaffold generation writes nothing unless it got the schema: when
    the driver cannot be acquired or its schema cannot be read (rejected or
    never answered), the handler has only sent its telemetry event, no file
    is written, the disk is as before, and no response is sent. *)
Theorem generate_schema_needs_schema (t : devtools) (w : Driver.world)
    (k : sink) (c : CubejsServerCore) (fs : gmap string string)
    (tables : list string) :
  (∀ ts, snd (load_schema t w (this_driver c)) ≠ Fulfilled ts) →
  let r := generate_schema_handler t w k c fs tables in
  fs_after r = fs ∧
  effects r = [ETrack "Dev Server Generate Schema" (this_anonymousId c) None] ∧
  (∀ body, response r ≠ Fulfilled body).
Proof.
  intros Hn r. subst r. unfold generate_schema_handler.
  destruct (load_schema t w (this_driver c)) as [s' [ts|e|]]; simpl in *.
  - destruct (Hn ts eq_refl).
  - split_and!; [reflexivity..|discriminate].
  - split_and!; [reflexivity..|discriminate].
Qed.

Lemma generate_schema_needs_schema_witness :
  fs_after (generate_schema_handler demo_tools flaky_world quiet_sink
              (demo_core Unset) ∅ ["orders"]) = ∅.
Proof.
  refine (proj1 (generate_schema_needs_schema demo_tools flaky_world quiet_sink
                   (demo_core Unset) ∅ ["orders"] _)).
  intros ts. discriminate.
Defined.

Lemma target_injective (f g : file) :
  target f = target g → fileName f = fileName g.
Proof. unfold target, path_join. simpl. intros [= H]. exact H. Qed.

Lemma targets_distinct (files : list file) :
  NoDup (map fileName files) → NoDup (map target files).
Proof.
  induction files as [|f files IH]; simpl; intros Hnd; [apply NoDup_nil; exact I|].
  apply NoDup_cons in Hnd as [Hf Hnd]. apply NoDup_cons. split; [|auto].
  intros Hin. apply Hf. apply list_elem_of_In in Hin.
  apply in_map_iff in Hin as (g & Hg & Hin).
  apply list_elem_of_In, in_map_iff. exists g.
  split; [apply target_injective; exact Hg | exact Hin].
Qed.

(** X24.  What scaffold generation leaves on the disk, once it has the
    schema and the generated files have plain, different names (each one
    path segment: not empty, not a dot or two, no slash): each file whose
    write succeeds is at schema/ followed by its name, with its content,
    whatever happened to the other writes, before or after it; and a path
    that is not the target of a generated file is not touched. *)
Theorem generate_schema_disk (t : devtools) (w : Driver.world) (k : sink)
    (c : CubejsServerCore) (fs : gmap string string) (tables : list string)
    (s' : Driver.state) (ts : nat) :
  load_schema t w (this_driver c) = (s', Fulfilled ts) →
  (∀ f, In f (generateFilesByTableNames t ts tables) →
        plain_name (fileName f) = true) →
  NoDup (map fileName (generateFilesByTableNames t ts tables)) →
  let files := generateFilesByTableNames t ts tables in
  let r := generate_schema_handler t w k c fs tables in
  (∀ f, In f files → writeFile t (target f) = Resolves →
        target f = "schema/" +:+ fileName f ∧
        fs_after r !! target f = Some (content f)) ∧
  (∀ p, (∀ f, In f files → target f ≠ p) → fs_after r !! p = fs !! p).
Proof.
  intros Hl Hplain Hnd files r. subst r files. unfold generate_schema_handler.
  rewrite Hl. simpl. split.
  - intros f Hin Hw. split; [reflexivity|].
    apply write_all_keeps; [apply targets_distinct, Hnd | exact Hin | exact Hw].
  - intros p Hp. apply write_all_other, Hp.
Qed.

Lemma generate_schema_disk_witness :
  fs_after (generate_schema_handler (failing_disk "schema/orders.js") demo_world
              quiet_sink (demo_core Unset) ∅ ["orders"; "users"])
    !! "schema/users.js" = Some "cube:users".
Proof.
  refine (proj2 (proj1 (generate_schema_disk (failing_disk "schema/orders.js")
                   demo_world quiet_sink (demo_core Unset) ∅ ["orders"; "users"]
                   _ 0 _ _ _)
            {| fileName := "users.js"; content := "cube:users" |} _ _)).
  - reflexivity.
  - intros f Hin. simpl in Hin. destruct Hin as [<-|[<-|[]]]; reflexivity.
  - simpl. apply NoDup_cons. split; [|apply NoDup_cons; split; [|apply NoDup_nil; exact I]].
    + intros H. apply list_elem_of_singleton in H. discriminate H.
    + intros H. apply not_elem_of_nil in H. exact H.
  - simpl. tauto.
  - reflexivity.
Defined.





(** ** The supervisor, in full *)

Module SupervisorMore.
Import Supervisor.

Lemma event_pending (k : sink) (name : string) :
  track k name = Hangs ∨ (track k name = Resolves ∧ flush k name = Hangs) →
  fst (event_settle k name) = Pending.
Proof.
  unfold event_settle, event_body.
  intros [H|[H1 H2]]; [rewrite H | rewrite H1, H2]; reflexivity.
Qed.

(** X26.  The process exits only through a settled report: if the sink never
    answers the fatal-error event (the delivery hangs, or the flush after it
    does), the process never exits, however many exceptions arrive and
    whatever is scheduled; and without an exception nothing makes it exit. *)
Theorem exit_needs_settled_report (platform : string) (aid : option string)
    (k : sink) (acts : list occurrence) :
  (track k fatal = Hangs ∨ (track k fatal = Resolves ∧ flush k fatal = Hangs) →
   exited (react_all platform aid k acts init) = None) ∧
  (exceptions acts = 0 →
   exited (react_all platform aid k acts init) = None).
Proof.
  pose proof (SupervisorFacts.run_coherent platform aid k acts init
                (SupervisorFacts.init_coherent k))
    as (_ & Hnone & Hsome & _ & _ & Hset & Hex).
  split.
  - intros Hh. apply event_pending in Hh.
    destruct (exited (react_all platform aid k acts init)) as [c|] eqn:Hx;
      [|reflexivity].
    destruct (Hex c eq_refl) as (_ & Hst & _).
    rewrite (Hset Hst) in Hh. discriminate.
  - intros H0.
    destruct (SupervisorFacts.arrivals_run platform aid k acts init
                (SupervisorFacts.init_coherent k)) as (_ & Hub & _).
    simpl in Hub. rewrite H0 in Hub.
    destruct (exited (react_all platform aid k acts init)) as [c|] eqn:Hx;
      [|reflexivity].
    destruct (Hex c eq_refl) as (_ & Hst & _).
    destruct (causeErrorPromise (react_all platform aid k acts init)) as [p|] eqn:Hp.
    + destruct (Hsome p eq_refl) as [_ Hpos]. lia.
    + destruct (Hnone eq_refl) as [_ Hf]. congruence.
Qed.

Lemma exit_needs_settled_report_witness :
  exited (react_all "linux" None
            {| track := fun _ => Hangs; flush := fun _ => Resolves |}
            [Uncaught boom; Settle; Resume 0] init) = None.
Proof.
  refine (proj1 (exit_needs_settled_report "linux" None
                   {| track := fun _ => Hangs; flush := fun _ => Resolves |}
                   [Uncaught boom; Settle; Resume 0]) _).
  left. reflexivity.
Defined.







(** X28.  The remediation lines depend on the message and the platform only:
    nothing is printed unless the message mentions a Redis connection, and
    then exactly two lines are, the notice and one install hint chosen by how
    the platform name begins: win first, then darwin, else the general
    one. *)
Theorem guidance_lines (platform : string) (e : exn) :
  guidance platform e =
    match message e with
    | Some m =>
        match String.index 0 "Redis connection to" m with
        | Some _ =>
            [ EConsole LRedisRequired;
              EConsole (if String.prefix "win" platform then LRedisWindows
                        else if String.prefix "darwin" platform then LRedisMac
                        else LRedisOther) ]
        | None => []
        end
    | None => []
    end.
Proof.
  unfold guidance. destruct (message e) as [m|]; [|reflexivity].
  assert (Hw : Z.eqb (indexOf platform "win") 0 = String.prefix "win" platform).
  { destruct (String.prefix "win" platform) eqn:Hp.
    - apply indexOf_zero, Hp.
    - destruct (Z.eqb (indexOf platform "win") 0) eqn:Hz; [|reflexivity].
      apply indexOf_zero in Hz. congruence. }
  assert (Hd : Z.eqb (indexOf platform "darwin") 0 = String.prefix "darwin" platform).
  { destruct (String.prefix "darwin" platform) eqn:Hp.
    - apply indexOf_zero, Hp.
    - destruct (Z.eqb (indexOf platform "darwin") 0) eqn:Hz; [|reflexivity].
      apply indexOf_zero in Hz. congruence. }
  rewrite Hw, Hd. unfold indexOf.
  destruct (String.index 0 "Redis connection to" m) as [n|] eqn:Hi.
  - assert (Hm : truthy_str (Some m) = true).
    { destruct m; [discriminate Hi | reflexivity]. }
    rewrite Hm. simpl.
    assert (Hn : Z.eqb (Z.of_nat n) (-1) = false) by (apply Z.eqb_neq; lia).
    rewrite Hn. simpl.
    destruct (String.prefix "win" platform); [reflexivity|].
    destruct (String.prefix "darwin" platform); reflexivity.
  - rewrite andb_false_r. reflexivity.
Qed.

End SupervisorMore.
